(** * The per-cluster controller of the etcd operator

    A shallow embedding of [pkg/cluster/cluster.go] (package [cluster]) and of
    [handleBackup] and [handleABS] (package [controller]), with the
    properties of the controller's specification stated and proved over it,
    followed by further properties of the same code.

    Conventions of the embedding.
    - A Go pointer to a cluster record ([*spec.EtcdCluster]) is a location in
      an explicit store; dereferencing a location that is not allocated is the
      nil-pointer panic.
    - The controller runs on one goroutine; its methods are computations in a
      state monad over the controller's fields, the store and the trace of
      the calls made to the collaborators (platform client, record client,
      backup manager).  A collaborator's answer is looked up in an
      environment, as a function of the calls made so far.
    - [reflect.DeepEqual] on the data modelled here (no functions, no
      floating point) is equality of the modelled values.
    - Statements that only write to the logger or bump a metric have no
      effect on the modelled state and are left out; [logrus.Fatalf], which
      ends the process, and the warning of [send] are kept. *)

From Stdlib Require Import ZArith.
From stdpp Require Import base option list strings gmap.

Local Open Scope string_scope.
Local Open Scope list_scope.
Local Open Scope Z_scope.

(** ** Errors *)

(** Go [error] values: package-level values made by [errors.New], values
    returned by a collaborator, and values built by [fmt.Errorf].  Every
    format of the package takes its string arguments first and at most one
    error argument, last: [Errorf] has none, [ErrorfErr] has one. *)
Inductive error : Type :=
| ErrNew (msg : string)
| ErrCollab (origin : string) (code : Z)
| Errorf (format : string) (strs : list string)
| ErrorfErr (format : string) (strs : list string) (cause : error).

(** ** Package spec: the cluster record *)

Module spec.

(** [ClusterPhase] is a string type with four constants;
    [ClusterPhaseOther s] stands for a string [s] that is none of them. *)
Inductive ClusterPhase : Type :=
| ClusterPhaseNone
| ClusterPhaseCreating
| ClusterPhaseRunning
| ClusterPhaseFailed
| ClusterPhaseOther (s : string).

#[global] Instance ClusterPhase_eq_dec : EqDecision ClusterPhase.
Proof. solve_decision. Defined.

(** The phase as printed by the verb [%s]. *)
Definition ClusterPhase_string (p : ClusterPhase) : string :=
  match p with
  | ClusterPhaseNone => ""
  | ClusterPhaseCreating => "Creating"
  | ClusterPhaseRunning => "Running"
  | ClusterPhaseFailed => "Failed"
  | ClusterPhaseOther s => s
  end.

Record MembersStatus : Type := mkMembersStatus {
  Ready : list string;
  Unready : list string }.

#[global] Instance MembersStatus_eq_dec : EqDecision MembersStatus.
Proof. solve_decision. Defined.

(** Modelled from the spec: the declaration of [spec.ClusterStatus] is not
    among the sources; the fields are those of the data model (phase, actual
    size, members, ordered log of conditions, backup-service status, last
    reason).  [StatusSize] is the Go field [Size] of the status. *)
Record ClusterStatus : Type := mkClusterStatus {
  Phase : ClusterPhase;
  Reason : string;
  StatusSize : Z;
  Members : MembersStatus;
  Conditions : list string;
  BackupServiceStatus : option string }.

#[global] Instance ClusterStatus_eq_dec : EqDecision ClusterStatus.
Proof. solve_decision. Defined.

Definition set_Phase (p : ClusterPhase) (s : ClusterStatus) : ClusterStatus :=
  mkClusterStatus p (Reason s) (StatusSize s) (Members s) (Conditions s)
    (BackupServiceStatus s).

Definition set_StatusSize (n : Z) (s : ClusterStatus) : ClusterStatus :=
  mkClusterStatus (Phase s) (Reason s) n (Members s) (Conditions s)
    (BackupServiceStatus s).

Definition set_Members (m : MembersStatus) (s : ClusterStatus) : ClusterStatus :=
  mkClusterStatus (Phase s) (Reason s) (StatusSize s) m (Conditions s)
    (BackupServiceStatus s).

Definition set_BackupServiceStatus (b : option string) (s : ClusterStatus) :
  ClusterStatus :=
  mkClusterStatus (Phase s) (Reason s) (StatusSize s) (Members s)
    (Conditions s) b.

(** Modelled from the spec: the declaration of [spec.BackupPolicy] is not
    among the sources; the data model gives it a schedule (interval in
    seconds, maximum number of backups), a storage type and a
    storage-specific source. *)
Record BackupPolicy : Type := mkBackupPolicy {
  StorageType : string;
  StorageSource : string;
  BackupIntervalInSecond : Z;
  MaxBackups : Z }.

#[global] Instance BackupPolicy_eq_dec : EqDecision BackupPolicy.
Proof. solve_decision. Defined.

(** Of the other parts of the spec, the fields that the sources read. *)
Record StaticTLS : Type := mkStaticTLS {
  MemberSecret : string;
  OperatorSecret : string }.

Record TLSPolicy : Type := mkTLSPolicy {
  Static : option StaticTLS }.

Record PodPolicy : Type := mkPodPolicy {
  PersistentVolumeClaimSpec : option string;
  HostPath : option string }.

Record SelfHostedPolicy : Type := mkSelfHostedPolicy {
  BootMemberClientEndpoint : string }.

#[global] Instance StaticTLS_eq_dec : EqDecision StaticTLS.
Proof. solve_decision. Defined.
#[global] Instance TLSPolicy_eq_dec : EqDecision TLSPolicy.
Proof. solve_decision. Defined.
#[global] Instance PodPolicy_eq_dec : EqDecision PodPolicy.
Proof. solve_decision. Defined.
#[global] Instance SelfHostedPolicy_eq_dec : EqDecision SelfHostedPolicy.
Proof. solve_decision. Defined.

(** Modelled from the spec: the declaration of [spec.ClusterSpec] is not
    among the sources.  Pointer fields are options. *)
Record ClusterSpec : Type := mkClusterSpec {
  Size : Z;
  Version : string;
  Paused : bool;
  TLS : option TLSPolicy;
  Pod : option PodPolicy;
  Backup : option BackupPolicy;
  SelfHosted : option SelfHostedPolicy }.

#[global] Instance ClusterSpec_eq_dec : EqDecision ClusterSpec.
Proof. solve_decision. Defined.

(** The cluster record, with the fields that the sources read. *)
Record EtcdCluster : Type := mkEtcdCluster {
  Name : string;
  Namespace : string;
  UID : string;
  Spec : ClusterSpec;
  Status : ClusterStatus }.

#[global] Instance EtcdCluster_eq_dec : EqDecision EtcdCluster.
Proof. solve_decision. Defined.

Definition set_Status (s : ClusterStatus) (cl : EtcdCluster) : EtcdCluster :=
  mkEtcdCluster (Name cl) (Namespace cl) (UID cl) (Spec cl) s.

End spec.

(** ** Package v1: what the controller reads of a pod *)

Module v1.

Definition PodPhase : Type := string.
Definition PodPending : PodPhase := "Pending".
Definition PodRunning : PodPhase := "Running".
Definition PodSucceeded : PodPhase := "Succeeded".
Definition PodFailed : PodPhase := "Failed".
Definition PodUnknown : PodPhase := "Unknown".

Record OwnerReference : Type := mkOwnerReference {
  UID : string }.

Record PodStatus : Type := mkPodStatus {
  Phase : PodPhase }.

Record Pod : Type := mkPod {
  Name : string;
  OwnerReferences : list OwnerReference;
  Status : PodStatus }.

#[global] Instance OwnerReference_eq_dec : EqDecision OwnerReference.
Proof. solve_decision. Defined.
#[global] Instance PodStatus_eq_dec : EqDecision PodStatus.
Proof. solve_decision. Defined.
#[global] Instance Pod_eq_dec : EqDecision Pod.
Proof. solve_decision. Defined.

End v1.

(** ** Package etcdutil: members *)

Module etcdutil.

Record Member : Type := mkMember {
  Name : string;
  Namespace : string;
  SecurePeer : bool;
  SecureClient : bool }.

(** [MemberSet] is [map[string]*Member], keyed by the member's name. *)
Abbreviation MemberSet := (gmap string Member).

Definition NewMemberSet (m : Member) : MemberSet := {[ Name m := m ]}.

End etcdutil.

(** ** Package cluster *)

Module cluster.

(** Both in seconds. *)
Definition reconcileInterval : Z := 8.
Definition podTerminationGracePeriod : Z := 5.

Definition clusterEventType : Type := string.
Definition eventDeleteCluster : clusterEventType := "Delete".
Definition eventModifyCluster : clusterEventType := "Modify".

(** Locations of cluster records; [None] is the nil pointer. *)
Abbreviation loc := positive.

Record clusterEvent : Type := mkClusterEvent {
  typ : clusterEventType;
  ev_cluster : option loc }.

(** Handles of the collaborators' objects. *)
Definition backupManager : Type := Z.
Definition TLSConfig : Type := string.

(** What [createPod] hands to the platform: the arguments of
    [k8sutil.NewEtcdPod] and the calls made on the pod before it is
    submitted. *)
Inductive Volume : Type :=
| VolumePVC (pvcSpec : string)
| VolumeHostPath (hostPath : string)
| VolumeEmptyDir.

Record PodRequest : Type := mkPodRequest {
  pr_member : etcdutil.Member;
  pr_initialCluster : list string;
  pr_clusterName : string;
  pr_state : string;
  pr_token : string;
  pr_spec : spec.ClusterSpec;
  pr_owner : v1.OwnerReference;
  pr_recovery : bool;
  pr_volume : Volume }.

Record PVCRequest : Type := mkPVCRequest {
  pvc_member : etcdutil.Member;
  pvc_spec : string;
  pvc_clusterName : string;
  pvc_namespace : string;
  pvc_owner : v1.OwnerReference }.

(** The calls the controller makes to its collaborators. *)
Inductive Call : Type :=
| CallGenerateTLSConfig (operatorSecret ns : string)
| CallNewBackupManager (cl : spec.EtcdCluster)
| CallBMSetup (b : backupManager)
| CallBMUpgradeIfNeeded (b : backupManager)
| CallBMDeleteBackupSidecar (b : backupManager)
| CallBMUpdateSidecar (b : backupManager) (cl : spec.EtcdCluster)
| CallBMGetStatus (b : backupManager)
| CallCRUpdate (cl : spec.EtcdCluster)
| CallGCCollectCluster (name uid : string)
| CallPodsList (ns clusterName : string)
| CallPodsCreate (ns : string) (pod : PodRequest)
| CallPodsDelete (ns name : string) (gracePeriodSeconds : Z)
| CallPVCCreate (ns : string) (pvc : PVCRequest)
| CallCreateClientService (name ns : string) (owner : v1.OwnerReference)
| CallCreatePeerService (name ns : string) (owner : v1.OwnerReference)
| CallCheckHealth (url : string) (tls : option TLSConfig)
| CallUUIDNew.

(** The fields of the Go struct [Cluster] that the methods below read or
    write ([c.cluster] is a pointer; a nil map of members is [None]), the
    store of cluster records and the trace of calls. *)
Record World : Type := mkWorld {
  cluster : option loc;
  status : spec.ClusterStatus;
  memberCounter : Z;
  members : option etcdutil.MemberSet;
  bm : option backupManager;
  tlsConfig : option TLSConfig;
  store : gmap loc spec.EtcdCluster;
  trace : list Call }.

Definition set_cluster (l : option loc) (w : World) : World :=
  mkWorld l (status w) (memberCounter w) (members w) (bm w) (tlsConfig w)
    (store w) (trace w).
Definition set_status (s : spec.ClusterStatus) (w : World) : World :=
  mkWorld (cluster w) s (memberCounter w) (members w) (bm w) (tlsConfig w)
    (store w) (trace w).
Definition set_memberCounter (n : Z) (w : World) : World :=
  mkWorld (cluster w) (status w) n (members w) (bm w) (tlsConfig w)
    (store w) (trace w).
Definition set_members (ms : option etcdutil.MemberSet) (w : World) : World :=
  mkWorld (cluster w) (status w) (memberCounter w) ms (bm w) (tlsConfig w)
    (store w) (trace w).
Definition set_bm (b : option backupManager) (w : World) : World :=
  mkWorld (cluster w) (status w) (memberCounter w) (members w) b (tlsConfig w)
    (store w) (trace w).
Definition set_tlsConfig (t : option TLSConfig) (w : World) : World :=
  mkWorld (cluster w) (status w) (memberCounter w) (members w) (bm w) t
    (store w) (trace w).
Definition set_store (h : gmap loc spec.EtcdCluster) (w : World) : World :=
  mkWorld (cluster w) (status w) (memberCounter w) (members w) (bm w)
    (tlsConfig w) h (trace w).
Definition set_trace (t : list Call) (w : World) : World :=
  mkWorld (cluster w) (status w) (memberCounter w) (members w) (bm w)
    (tlsConfig w) (store w) t.

(** *** The monad of the controller's goroutine *)

Inductive outcome (A : Type) : Type :=
| Ret (a : A)
| Panic (msg : string).
Arguments Ret {A} a.
Arguments Panic {A} msg.

Definition M (A : Type) : Type := World -> outcome A * World.

#[global] Instance M_ret : MRet M := fun A a w => (Ret a, w).

#[global] Instance M_bind : MBind M := fun A B f m w =>
  match m w with
  | (Ret a, w') => f a w'
  | (Panic msg, w') => (Panic msg, w')
  end.

(** [p == nil]. *)
Definition isNil {A : Type} (p : option A) : bool :=
  match p with
  | None => true
  | Some _ => false
  end.

Definition panic {A : Type} (msg : string) : M A := fun w => (Panic msg, w).
Definition get {A : Type} (f : World -> A) : M A := fun w => (Ret (f w), w).
Definition modify (f : World -> World) : M unit := fun w => (Ret tt, f w).

Definition nilDeref : string :=
  "invalid memory address or nil pointer dereference".

(** [*p] for a pointer to a cluster record. *)
Definition load (p : option loc) : M spec.EtcdCluster := fun w =>
  match p with
  | Some l =>
      match store w !! l with
      | Some cl => (Ret cl, w)
      | None => (Panic nilDeref, w)
      end
  | None => (Panic nilDeref, w)
  end.

(** [*p = cl]. *)
Definition storeAt (p : option loc) (cl : spec.EtcdCluster) : M unit := fun w =>
  match p with
  | Some l =>
      match store w !! l with
      | Some _ => (Ret tt, set_store (<[l := cl]> (store w)) w)
      | None => (Panic nilDeref, w)
      end
  | None => (Panic nilDeref, w)
  end.

(** A record returned by a collaborator lives at a location of its own. *)
Definition alloc (cl : spec.EtcdCluster) : M (option loc) := fun w =>
  let l := fresh (dom (store w)) in
  (Ret (Some l), set_store (<[l := cl]> (store w)) w).

(** A call to a collaborator: the call is appended to the trace and the
    answer is the environment's, given the calls made before it. *)
Definition call {R : Type} (c : Call) (answer : list Call -> R) : M R :=
  fun w => (Ret (answer (trace w)), set_trace (trace w ++ [c]) w).

(** [b.method()] on the backup manager [c.bm]; a nil manager is
    dereferenced by every one of its methods. *)
Definition withBM {A : Type} (k : backupManager -> M A) : M A :=
  b ← get bm;
  match b with
  | Some h => k h
  | None => panic nilDeref
  end.

(** *** What the package takes from elsewhere *)

(** Functions and values of other packages (and of [fmt]) that the methods
    use and whose code is not part of the sources.  The methods of
    [spec.ClusterStatus] act on the receiver; here they return the new
    status. *)
Record Lib : Type := mkLib {
  Validate : spec.ClusterSpec -> option error;
  IsSecurePeer : option spec.TLSPolicy -> bool;
  IsSecureClient : option spec.TLSPolicy -> bool;
  AsOwner : spec.EtcdCluster -> v1.OwnerReference;
  Copy : spec.ClusterStatus -> spec.ClusterStatus;
  SetPhase : spec.ClusterPhase -> spec.ClusterStatus -> spec.ClusterStatus;
  SetReason : string -> spec.ClusterStatus -> spec.ClusterStatus;
  PauseControl : spec.ClusterStatus -> spec.ClusterStatus;
  Control : spec.ClusterStatus -> spec.ClusterStatus;
  AppendScalingUpCondition :
    Z -> Z -> spec.ClusterStatus -> spec.ClusterStatus;
  errCreatedCluster : error;
  isFatalError : option error -> bool;
  Error_string : error -> string;
  IsKubernetesResourceNotFoundError : error -> bool;
  CreateMemberName : string -> Z -> string;
  ClientURL : etcdutil.Member -> string;
  PeerURLPairs : etcdutil.MemberSet -> list string;
  podsToMemberSet : list v1.Pod -> bool -> etcdutil.MemberSet;
  backupServiceStatusToTPRBackupServiceStatu : string -> option string }.

(** The answers of the collaborators, each a function of the calls made
    before it and of the arguments. *)
Record Env : Type := mkEnv {
  GenerateTLSConfig : list Call -> string -> string -> error + TLSConfig;
  newBackupManager :
    list Call -> spec.EtcdCluster -> option backupManager * option error;
  bm_setup : list Call -> backupManager -> option error;
  bm_upgradeIfNeeded : list Call -> backupManager -> option error;
  bm_updateSidecar :
    list Call -> backupManager -> spec.EtcdCluster -> option error;
  bm_getStatus : list Call -> backupManager -> error + string;
  EtcdCRCli_Update : list Call -> spec.EtcdCluster -> error + spec.EtcdCluster;
  Pods_List : list Call -> string -> string -> error + list v1.Pod;
  Pods_Create : list Call -> string -> PodRequest -> option error;
  Pods_Delete : list Call -> string -> string -> Z -> option error;
  PVC_Create : list Call -> string -> PVCRequest -> option error;
  CreateClientService :
    list Call -> string -> string -> v1.OwnerReference -> option error;
  CreatePeerService :
    list Call -> string -> string -> v1.OwnerReference -> option error;
  CheckHealth : list Call -> string -> option TLSConfig -> bool * option error;
  uuid_New : list Call -> string }.

(** Methods of [Cluster] that live in other files of the package. *)
Record Pkg : Type := mkPkg {
  newSelfHostedSeedMember : M (option error);
  migrateBootMember : M (option error);
  disasterRecovery : option etcdutil.MemberSet -> M (option error);
  updateMembers : etcdutil.MemberSet -> M (option error);
  reconcile : list v1.Pod -> M (option error) }.

(** *** The methods of [Cluster] *)

Section Methods.

Context (L : Lib) (E : Env) (P : Pkg).

(** [*c.cluster]. *)
Definition derefCluster : M spec.EtcdCluster :=
  p ← get cluster; load p.

Definition modifyStatus (f : spec.ClusterStatus -> spec.ClusterStatus) : M unit :=
  modify (fun w => set_status (f (status w)) w).

Definition isSecurePeer : M bool :=
  cl ← derefCluster; mret (IsSecurePeer L (spec.TLS (spec.Spec cl))).

Definition isSecureClient : M bool :=
  cl ← derefCluster; mret (IsSecureClient L (spec.TLS (spec.Spec cl))).

Definition refreshTLSConfig : M (option error) :=
  secure ← isSecureClient;
  if secure : bool then
    cl ← derefCluster;
    match spec.TLS (spec.Spec cl) ≫= spec.Static with
    | None => panic nilDeref
    | Some static =>
        let secret := spec.OperatorSecret static in
        let ns := spec.Namespace cl in
        r ← call (CallGenerateTLSConfig secret ns)
               (fun t => GenerateTLSConfig E t secret ns);
        match r with
        | inl err => mret (Some err)
        | inr cfg => modify (set_tlsConfig (Some cfg));; mret None
        end
    end
  else mret None.

(** [newCluster] and [c.cluster] are the same pointer: the assignment to
    [newCluster.Status] writes the record that [c.cluster] points to, and it
    is that record which is handed to the record client. *)
Definition updateCRStatus : M (option error) :=
  cl ← derefCluster;
  st ← get status;
  if bool_decide (spec.Status cl = st) then mret None
  else
    newCluster ← get cluster;
    old ← load newCluster;
    storeAt newCluster (spec.set_Status st old);;
    arg ← derefCluster;
    r ← call (CallCRUpdate arg) (fun t => EtcdCRCli_Update E t arg);
    match r with
    | inl err =>
        mret (Some (ErrorfErr "failed to update CR status: %v" [] err))
    | inr returned =>
        newCluster ← alloc returned;
        modify (set_cluster newCluster);;
        mret None
    end.

Definition isPodPVEnabled : M bool :=
  cl ← derefCluster;
  match spec.Pod (spec.Spec cl) with
  | Some podPolicy =>
      mret (bool_decide (spec.PersistentVolumeClaimSpec podPolicy ≠ None))
  | None => mret false
  end.

Definition isPodHostPathEnabled : M bool :=
  cl ← derefCluster;
  match spec.Pod (spec.Spec cl) with
  | Some podPolicy => mret (bool_decide (spec.HostPath podPolicy ≠ None))
  | None => mret false
  end.

Definition createPod (ms : etcdutil.MemberSet) (m : etcdutil.Member)
    (state : string) (needRecovery : bool) : M (option error) :=
  token ← (if bool_decide (state = "new")
           then call CallUUIDNew (uuid_New E) else mret "");
  cl ← derefCluster;
  let pod := mkPodRequest m (PeerURLPairs L ms) (spec.Name cl) state token
               (spec.Spec cl) (AsOwner L cl) needRecovery in
  pv ← isPodPVEnabled;
  if pv : bool then
    match spec.Pod (spec.Spec cl) ≫= spec.PersistentVolumeClaimSpec with
    | None => panic nilDeref
    | Some claim =>
        let pvc := mkPVCRequest m claim (spec.Name cl) (spec.Namespace cl)
                     (AsOwner L cl) in
        err ← call (CallPVCCreate (spec.Namespace cl) pvc)
                 (fun t => PVC_Create E t (spec.Namespace cl) pvc);
        match err with
        | Some e =>
            mret (Some (ErrorfErr "failed to create PVC for member (%s): %v"
                          [etcdutil.Name m] e))
        | None =>
            call (CallPodsCreate (spec.Namespace cl) (pod (VolumePVC claim)))
              (fun t => Pods_Create E t (spec.Namespace cl)
                          (pod (VolumePVC claim)))
        end
    end
  else
    hp ← isPodHostPathEnabled;
    if hp : bool then
      match spec.Pod (spec.Spec cl) ≫= spec.HostPath with
      | None => panic nilDeref
      | Some path =>
          call (CallPodsCreate (spec.Namespace cl) (pod (VolumeHostPath path)))
            (fun t => Pods_Create E t (spec.Namespace cl)
                        (pod (VolumeHostPath path)))
      end
    else
      call (CallPodsCreate (spec.Namespace cl) (pod VolumeEmptyDir))
        (fun t => Pods_Create E t (spec.Namespace cl) (pod VolumeEmptyDir)).

Definition startSeedMember (recoverFromBackup : bool) : M (option error) :=
  cl ← derefCluster;
  counter ← get memberCounter;
  securePeer ← isSecurePeer;
  secureClient ← isSecureClient;
  let m := etcdutil.mkMember (CreateMemberName L (spec.Name cl) counter)
             (spec.Namespace cl) securePeer secureClient in
  let ms := etcdutil.NewMemberSet m in
  err ← createPod ms m "new" recoverFromBackup;
  match err with
  | Some e =>
      mret (Some (ErrorfErr "failed to create seed member (%s): %v"
                    [etcdutil.Name m] e))
  | None =>
      modify (fun w => set_memberCounter (memberCounter w + 1) w);;
      modify (set_members (Some ms));;
      mret None
  end.

Definition bootstrap : M (option error) := startSeedMember false.

Definition recover : M (option error) := startSeedMember true.

Definition prepareSeedMember : M (option error) :=
  cl ← derefCluster;
  modifyStatus (AppendScalingUpCondition L 0 (spec.Size (spec.Spec cl)));;
  err ← match spec.SelfHosted (spec.Spec cl) with
        | Some sh =>
            if bool_decide (String.length (spec.BootMemberClientEndpoint sh) = 0%nat)
            then newSelfHostedSeedMember P
            else migrateBootMember P
        | None => bootstrap
        end;
  match err with
  | Some e => mret (Some e)
  | None => modifyStatus (spec.set_StatusSize 1);; mret None
  end.

Definition setupServices : M (option error) :=
  cl ← derefCluster;
  err ← call (CallCreateClientService (spec.Name cl) (spec.Namespace cl)
                (AsOwner L cl))
           (fun t => CreateClientService E t (spec.Name cl)
                       (spec.Namespace cl) (AsOwner L cl));
  match err with
  | Some e => mret (Some e)
  | None =>
      cl ← derefCluster;
      call (CallCreatePeerService (spec.Name cl) (spec.Namespace cl)
              (AsOwner L cl))
        (fun t => CreatePeerService E t (spec.Name cl) (spec.Namespace cl)
                    (AsOwner L cl))
  end.

Definition create : M (option error) :=
  modifyStatus (SetPhase L spec.ClusterPhaseCreating);;
  err ← updateCRStatus;
  match err with
  | Some e =>
      mret (Some (ErrorfErr
                    "cluster create: failed to update cluster phase (%v): %v"
                    [spec.ClusterPhase_string spec.ClusterPhaseCreating] e))
  | None =>
      cl ← derefCluster;
      call (CallGCCollectCluster (spec.Name cl) (spec.UID cl)) (fun _ => tt);;
      b ← get bm;
      err ← match b with
            | Some h => call (CallBMSetup h) (fun t => bm_setup E t h)
            | None => mret None
            end;
      match err with
      | Some e => mret (Some e)
      | None =>
          cl ← derefCluster;
          err ← match spec.Backup (spec.Spec cl) with
                | None => prepareSeedMember
                | Some _ => mret None
                end;
          match err with
          | Some e => mret (Some e)
          | None =>
              err ← setupServices;
              match err with
              | Some e =>
                  mret (Some (ErrorfErr
                    "cluster create: fail to create client service LB: %v"
                    [] e))
              | None => mret None
              end
          end
      end
  end.

(** The switch on the phase either leaves [setup] or fixes
    [shouldCreateCluster]. *)
Definition setup : M (option error) :=
  cl ← derefCluster;
  match Validate L (spec.Spec cl) with
  | Some err => mret (Some (ErrorfErr "invalid cluster spec: %v" [] err))
  | None =>
      st ← get status;
      sw ← match spec.Phase st with
           | spec.ClusterPhaseNone => mret (inr true)
           | spec.ClusterPhaseCreating => mret (inl (errCreatedCluster L))
           | spec.ClusterPhaseRunning => mret (inr false)
           | spec.ClusterPhaseFailed =>
               modifyStatus (spec.set_Phase spec.ClusterPhaseRunning);;
               updateCRStatus;;
               panic "for Failed phase, we update the status to Running, and panic"
           | spec.ClusterPhaseOther p =>
               mret (inl (Errorf "unexpected cluster phase: %s" [p]))
           end;
      match sw with
      | inl err => mret (Some err)
      | inr shouldCreateCluster =>
          err ← refreshTLSConfig;
          match err with
          | Some e =>
              mret (Some (ErrorfErr "faled to refresh tlsConfig: %v" [] e))
          | None =>
              cl ← derefCluster;
              err ← match spec.Backup (spec.Spec cl) with
                    | Some _ =>
                        '(b, err) ← call (CallNewBackupManager cl)
                                      (fun t => newBackupManager E t cl);
                        modify (set_bm b);;
                        match err with
                        | Some e => mret (Some e)
                        | None =>
                            if negb shouldCreateCluster
                            then withBM (fun h =>
                                   call (CallBMUpgradeIfNeeded h)
                                     (fun t => bm_upgradeIfNeeded E t h))
                            else mret None
                        end
                    | None => mret None
                    end;
              match err with
              | Some e => mret (Some e)
              | None =>
                  if shouldCreateCluster : bool then create else mret None
              end
          end
      end
  end.

Definition isBackupPolicyEqual (b1 b2 : option spec.BackupPolicy) : bool :=
  bool_decide (b1 = b2).

Definition isSpecEqual (s1 s2 : spec.ClusterSpec) : bool :=
  if bool_decide (spec.Size s1 ≠ spec.Size s2)
     || bool_decide (spec.Paused s1 ≠ spec.Paused s2)
     || bool_decide (spec.Version s1 ≠ spec.Version s2)
  then false
  else isBackupPolicyEqual (spec.Backup s1) (spec.Backup s2).

Definition updateBackupPolicy (ob nb : option spec.BackupPolicy) :
  M (option error) :=
  match ob, nb with
  | None, Some _ =>
      cl ← derefCluster;
      '(b, err) ← call (CallNewBackupManager cl)
                    (fun t => newBackupManager E t cl);
      modify (set_bm b);;
      match err with
      | Some e => mret (Some e)
      | None => withBM (fun h => call (CallBMSetup h) (fun t => bm_setup E t h))
      end
  | Some _, None =>
      withBM (fun h => call (CallBMDeleteBackupSidecar h) (fun _ => tt));;
      modify (set_bm None);;
      mret None
  | Some _, Some _ =>
      withBM (fun h =>
        cl ← derefCluster;
        call (CallBMUpdateSidecar h cl) (fun t => bm_updateSidecar E t h cl))
  | None, None => panic "unexpected backup spec comparison"
  end.

Definition removePod (name : string) : M (option error) :=
  cl ← derefCluster;
  let ns := spec.Namespace cl in
  let opts := podTerminationGracePeriod in
  err ← call (CallPodsDelete ns name opts)
           (fun t => Pods_Delete E t ns name opts);
  match err with
  | Some e =>
      if negb (IsKubernetesResourceNotFoundError L e) then mret (Some e)
      else mret None
  | None => mret None
  end.

(** One round of the loop of [pollPods] over [podList.Items]. *)
Definition pollPods_round (uid : string) (acc : list v1.Pod * list v1.Pod)
    (pod : v1.Pod) : list v1.Pod * list v1.Pod :=
  let '(running, pending) := acc in
  if bool_decide (length (v1.OwnerReferences pod) < 1)%nat then acc
  else
    match v1.OwnerReferences pod !! 0%nat with
    | None => acc
    | Some owner =>
        if bool_decide (v1.UID owner ≠ uid) then acc
        else if bool_decide (v1.Phase (v1.Status pod) = v1.PodRunning)
        then (running ++ [pod], pending)
        else if bool_decide (v1.Phase (v1.Status pod) = v1.PodPending)
        then (running, pending ++ [pod])
        else acc
    end.

Definition pollPods : M (list v1.Pod * list v1.Pod * option error) :=
  cl ← derefCluster;
  r ← call (CallPodsList (spec.Namespace cl) (spec.Name cl))
         (fun t => Pods_List E t (spec.Namespace cl) (spec.Name cl));
  match r with
  | inl err =>
      mret ([], [], Some (ErrorfErr "failed to list running pods: %v" [] err))
  | inr items =>
      cl ← derefCluster;
      let '(running, pending) :=
        foldl (pollPods_round (spec.UID cl)) ([], []) items in
      mret (running, pending, None)
  end.

(** The loop of [updateMemberStatus]; the members come in the order in which
    the range over the map visits them (Go leaves that order open). *)
Fixpoint updateMemberStatus_loop (ms : list etcdutil.Member)
    (ready unready : list string) : M (list string * list string) :=
  match ms with
  | [] => mret (ready, unready)
  | m :: rest =>
      let url := ClientURL L m in
      tls ← get tlsConfig;
      '(healthy, _) ← call (CallCheckHealth url tls)
                        (fun t => CheckHealth E t url tls);
      if healthy : bool
      then updateMemberStatus_loop rest (ready ++ [etcdutil.Name m]) unready
      else updateMemberStatus_loop rest ready (unready ++ [etcdutil.Name m])
  end.

Definition updateMemberStatus (members : option etcdutil.MemberSet) : M unit :=
  let ms := match members with
            | Some s => (map_to_list s).*2
            | None => []
            end in
  '(ready, unready) ← updateMemberStatus_loop ms [] [];
  modifyStatus (fun s =>
    spec.set_Members (spec.mkMembersStatus ready (spec.Unready (spec.Members s))) s);;
  modifyStatus (fun s =>
    spec.set_Members (spec.mkMembersStatus (spec.Ready (spec.Members s)) unready) s).

Definition updateLocalBackupStatus : M (option error) :=
  b ← get bm;
  match b with
  | None => mret None
  | Some h =>
      r ← call (CallBMGetStatus h) (fun t => bm_getStatus E t h);
      match r with
      | inl err => mret (Some err)
      | inr bs =>
          modifyStatus (spec.set_BackupServiceStatus
                          (backupServiceStatusToTPRBackupServiceStatu L bs));;
          mret None
      end
  end.

(** *** The run loop *)

(** What the [select] of the loop receives: an event from [eventCh] or the
    tick of [time.After(reconcileInterval)]. *)
Inductive Input : Type :=
| InEvent (event : clusterEvent)
| InTick.

(** How a case of the [select] ends: it reaches the statements after the
    [select] (by running to its end or by [break]), it goes to the next
    round ([continue]), or [run] returns.  [rerr] is the local variable of
    [run] that lives across rounds. *)
Inductive flow : Type :=
| AfterSelect (rerr : option error)
| Continue (rerr : option error)
| Return.

Definition onEvent (event : clusterEvent) (rerr : option error) : M flow :=
  if bool_decide (typ event = eventModifyCluster) then
    refreshTLSConfig;;
    new ← load (ev_cluster event);
    cur ← derefCluster;
    if isSpecEqual (spec.Spec new) (spec.Spec cur) then mret (AfterSelect rerr)
    else
      let ob := spec.Backup (spec.Spec cur) in
      let nb := spec.Backup (spec.Spec new) in
      modify (set_cluster (ev_cluster event));;
      if negb (isBackupPolicyEqual ob nb) then
        err ← updateBackupPolicy ob nb;
        match err with
        | Some e =>
            modifyStatus (SetReason L (Error_string L e));;
            mret Return
        | None => mret (AfterSelect rerr)
        end
      else mret (AfterSelect rerr)
  else if bool_decide (typ event = eventDeleteCluster) then mret Return
  else panic (String.append "unknown event type" (typ event)).

Definition onTick (rerr : option error) : M flow :=
  refreshTLSConfig;;
  cl ← derefCluster;
  if spec.Paused (spec.Spec cl) then
    modifyStatus (PauseControl L);;
    mret (Continue rerr)
  else
    modifyStatus (Control L);;
    '(running, pending, err) ← pollPods;
    match err with
    | Some _ => mret (Continue rerr)
    | None =>
        if bool_decide (0 < length pending)%nat then mret (Continue rerr)
        else if bool_decide (length running = 0)%nat then
          rerr ← disasterRecovery P None;
          mret (AfterSelect rerr)
        else
          ms ← get members;
          rerr ← (if negb (isNil rerr) || isNil ms
                  then
                    secure ← isSecureClient;
                    updateMembers P (podsToMemberSet L running secure)
                  else mret rerr);
          match rerr with
          | Some e => mret (AfterSelect (Some e))
          | None =>
              rerr ← reconcile P running;
              match rerr with
              | Some e => mret (AfterSelect (Some e))
              | None =>
                  updateLocalBackupStatus;;
                  ms ← get members;
                  updateMemberStatus ms;;
                  updateCRStatus;;
                  mret (AfterSelect None)
              end
          end
    end.

(** The statements after the [select]. *)
Definition afterSelect (rerr : option error) : M unit :=
  if isFatalError L rerr then
    match rerr with
    | Some e => modifyStatus (SetReason L (Error_string L e))
    | None => panic nilDeref
    end
  else mret tt.

(** One round of the [for] loop: [Some rerr] when the loop goes on, [None]
    when [run] returns. *)
Definition round (i : Input) (rerr : option error) : M (option (option error)) :=
  fl ← match i with
       | InEvent event => onEvent event rerr
       | InTick => onTick rerr
       end;
  match fl with
  | AfterSelect rerr => afterSelect rerr;; mret (Some rerr)
  | Continue rerr => mret (Some rerr)
  | Return => mret None
  end.

Fixpoint rounds (ins : list Input) (rerr : option error) :
  M (option (option error)) :=
  match ins with
  | [] => mret (Some rerr)
  | i :: rest =>
      r ← round i rerr;
      match r with
      | Some rerr => rounds rest rerr
      | None => mret None
      end
  end.

(** [run], fed with the inputs its [select] receives. *)
Definition run (ins : list Input) : M (option (option error)) :=
  modifyStatus (SetPhase L spec.ClusterPhaseRunning);;
  updateCRStatus;;
  rounds ins None.

(** The goroutine started by [New]. *)
Definition goroutine (ins : list Input) : M (option (option error)) :=
  err ← setup;
  match err with
  | Some e => panic (String.append "cluster failed to setup: " (Error_string L e))
  | None => run ins
  end.

(** The controller as [New] builds it around the record [cl]. *)
Definition New (h : gmap loc spec.EtcdCluster) (cl : option loc) :
  outcome World :=
  match cl ≫= (h !!.) with
  | Some record =>
      Ret (mkWorld cl (Copy L (spec.Status record)) 0 None None None h [])
  | None => Panic nilDeref
  end.

End Methods.

(** *** The event queue *)

(** [eventCh], a buffered channel, and [stopCh], which carries no value and
    is ready for a receive once it is closed. *)
Record Chans : Type := mkChans {
  eventCh : list clusterEvent;
  eventCh_cap : Z;
  stopCh_closed : bool }.

(** The channels made by [New]. *)
Definition New_chans : Chans := mkChans [] 100 false.

Definition len (ch : Chans) : Z := Z.of_nat (length (eventCh ch)).

(** [int(float64(ecap)*0.8)]; for the capacity 100 the product is the
    float 80. *)
Definition warnThreshold (ecap : Z) : Z := ecap * 8 / 10.

Inductive sendResult : Type :=
| Enqueued (ch : Chans) (warned : bool)
| Stopped.

(** The cases of the [select] of [send] that are ready in [ch], each with
    what it does.  The [select] has no default case: it takes one of the
    ready cases, and when none is ready the caller blocks. *)
Definition send (ch : Chans) (ev : clusterEvent) : list sendResult :=
  (if bool_decide (len ch < eventCh_cap ch) then
     let ch' := mkChans (eventCh ch ++ [ev]) (eventCh_cap ch)
                  (stopCh_closed ch) in
     [Enqueued ch' (bool_decide (warnThreshold (eventCh_cap ch') < len ch'))]
   else [])
  ++ (if stopCh_closed ch then [Stopped] else []).

Definition blocks (ch : Chans) (ev : clusterEvent) : Prop := send ch ev = [].

Definition Delete (ch : Chans) : list sendResult :=
  send ch (mkClusterEvent eventDeleteCluster None).

Definition Update (ch : Chans) (cl : option loc) : list sendResult :=
  send ch (mkClusterEvent eventModifyCluster cl).

End cluster.

(** ** Package controller: the backup operator's dispatch *)

Module controller.

(** The fields of [api.BackupSpec] and of the receiver that [handleBackup]
    reads. *)
Record BackupSpec : Type := mkBackupSpec {
  StorageType : string;
  S3 : option string;
  ABS : option string;
  EtcdEndpoints : list string;
  ClientTLSSecret : string }.

Record BackupStatus : Type := mkBackupStatus {
  EtcdVersion : string;
  EtcdRevision : Z }.

Record Backup : Type := mkBackup {
  namespace : string }.

(** How a call ends: it returns, or [logrus.Fatalf] ends the process. *)
Inductive result (A : Type) : Type :=
| Returns (a : A)
| Exits (code : Z) (logged : string).
Arguments Returns {A} a.
Arguments Exits {A} code logged.

Section HandleBackup.

(** The constants of package [api] and the two handlers, as called by
    [handleBackup] (source, endpoints, TLS secret, namespace). *)
Context (BackupStorageTypeS3 BackupStorageTypeABS : string).
Context (handleS3 handleABS :
  option string -> list string -> string -> string ->
  option BackupStatus * option error).

Definition handleBackup (b : Backup) (spec : BackupSpec) :
  result (option BackupStatus * option error) :=
  if bool_decide (StorageType spec = BackupStorageTypeS3) then
    let '(bs, err) := handleS3 (S3 spec) (EtcdEndpoints spec)
                        (ClientTLSSecret spec) (namespace b) in
    match err with
    | Some e => Returns (None, Some e)
    | None => Returns (bs, None)
    end
  else if bool_decide (StorageType spec = BackupStorageTypeABS) then
    let '(bs, err) := handleABS (ABS spec) (EtcdEndpoints spec)
                        (ClientTLSSecret spec) (namespace b) in
    match err with
    | Some e => Returns (None, Some e)
    | None => Returns (bs, None)
    end
  else Exits 1 (String.append "unknown StorageType: " (StorageType spec)).

End HandleBackup.

End controller.


(** ** Notions used in the statements *)

Import cluster.

(** The record that [c.cluster] points to. *)
Definition theCluster (w : World) : option spec.EtcdCluster :=
  cluster w ≫= (store w !!.).

(** The world after a call [c] has been added to the trace. *)
Definition called (c : Call) (w : World) : World :=
  set_trace (trace w ++ [c]) w.

(** The world after [updateCRStatus] has written [c.status] into the record
    at [l] and has handed that record, [sent], to the record client. *)
Definition written (l : loc) (sent : spec.EtcdCluster) (w : World) : World :=
  set_trace (trace w ++ [CallCRUpdate sent])
    (set_store (<[l := sent]> (store w)) w).

(** The world after the record [returned] by the client has become
    [c.cluster]. *)
Definition adopted (returned : spec.EtcdCluster) (w : World) : World :=
  let l := fresh (dom (store w)) in
  set_cluster (Some l) (set_store (<[l := returned]> (store w)) w).

(** A secure client comes with the static TLS block that names its secret
    (otherwise [refreshTLSConfig] dereferences nil). *)
Definition secureHasStatic (L : Lib) (cl : spec.EtcdCluster) : Prop :=
  IsSecureClient L (spec.TLS (spec.Spec cl)) = true ->
  is_Some (spec.TLS (spec.Spec cl) ≫= spec.Static).

(** [w1] differs from [w] at most in the TLS configuration and in one call
    to [GenerateTLSConfig]. *)
Definition tlsOnly (w w1 : World) : Prop :=
  cluster w1 = cluster w /\ status w1 = status w /\
  memberCounter w1 = memberCounter w /\ members w1 = members w /\
  bm w1 = bm w /\ store w1 = store w /\
  (trace w1 = trace w \/
   exists secret ns, trace w1 = trace w ++ [CallGenerateTLSConfig secret ns]).

(** What the loop relies on of the status methods and of [isFatalError]:
    a nil error is not fatal, setting the reason twice is setting it once,
    and pausing or resuming control does not interfere with the reason. *)
Record LibLaws (L : Lib) : Prop := mkLibLaws {
  isFatalError_nil : isFatalError L None = false;
  SetReason_idem r s : SetReason L r (SetReason L r s) = SetReason L r s;
  SetReason_PauseControl r s :
    SetReason L r (PauseControl L s) = PauseControl L (SetReason L r s);
  SetReason_Control r s :
    SetReason L r (Control L s) = Control L (SetReason L r s) }.

(** The states in which the loop of [run] starts a round: [rerr] is nil at
    the first round, and a round that does not leave the loop leads to the
    next. *)
Inductive loopHead (L : Lib) (E : Env) (P : Pkg) :
  option error -> World -> Prop :=
| loopHead_first w : loopHead L E P None w
| loopHead_next i rerr w rerr' w' :
    loopHead L E P rerr w ->
    round L E P i rerr w = (Ret (Some rerr'), w') ->
    loopHead L E P rerr' w'.

(** A fatal [rerr] has its message recorded as the reason. *)
Definition reasonRecorded (L : Lib) (rerr : option error) (w : World) : Prop :=
  forall e, rerr = Some e -> isFatalError L (Some e) = true ->
  SetReason L (Error_string L e) (status w) = status w.

(** The pod's first owner reference carries the UID [uid]. *)
Definition ours (uid : string) (pod : v1.Pod) : Prop :=
  v1.UID <$> head (v1.OwnerReferences pod) = Some uid.

#[global] Instance ours_dec uid pod : Decision (ours uid pod).
Proof. unfold ours. apply _. Defined.

Definition inPhase (ph : v1.PodPhase) (pod : v1.Pod) : Prop :=
  v1.Phase (v1.Status pod) = ph.

#[global] Instance inPhase_dec ph pod : Decision (inPhase ph pod).
Proof. unfold inPhase, v1.PodPhase. apply _. Defined.

(** The message of the panic of [setup] in the phase Failed. *)
Definition failedPanic : string :=
  "for Failed phase, we update the status to Running, and panic".

(** The calls of [setup] that come before the creation of the cluster. *)
Definition preludeCall (c : Call) : Prop :=
  match c with
  | CallGenerateTLSConfig _ _ | CallNewBackupManager _
  | CallBMUpgradeIfNeeded _ => True
  | _ => False
  end.

(** ** Sample inputs *)

Module sample.

Fixpoint errorString (e : error) : string :=
  match e with
  | ErrNew msg => msg
  | ErrCollab origin _ => origin
  | Errorf format _ => format
  | ErrorfErr format _ cause => String.append format (errorString cause)
  end.

Definition setReason (r : string) (s : spec.ClusterStatus) : spec.ClusterStatus :=
  spec.mkClusterStatus (spec.Phase s) r (spec.StatusSize s) (spec.Members s)
    (spec.Conditions s) (spec.BackupServiceStatus s).

Definition addCondition (c : string) (s : spec.ClusterStatus) :
  spec.ClusterStatus :=
  spec.mkClusterStatus (spec.Phase s) (spec.Reason s) (spec.StatusSize s)
    (spec.Members s) (spec.Conditions s ++ [c]) (spec.BackupServiceStatus s).

Definition isSecure (tls : option spec.TLSPolicy) : bool :=
  match tls ≫= spec.Static with
  | Some static => negb (bool_decide (spec.OperatorSecret static = ""))
  | None => false
  end.

Definition errNoBackupExist : error := ErrNew "no backup exist for a disaster recovery".

Definition lib : Lib :=
  {| Validate := fun _ => None;
     IsSecurePeer := isSecure;
     IsSecureClient := isSecure;
     AsOwner := fun cl => v1.mkOwnerReference (spec.UID cl);
     Copy := fun s => s;
     SetPhase := spec.set_Phase;
     SetReason := setReason;
     PauseControl := addCondition "Paused";
     Control := addCondition "Ready";
     AppendScalingUpCondition := fun _ _ => addCondition "ScalingUp";
     errCreatedCluster := ErrNew "cluster failed to be created";
     isFatalError := fun e =>
       match e with
       | Some (ErrNew _) => true
       | _ => false
       end;
     Error_string := errorString;
     IsKubernetesResourceNotFoundError := fun e =>
       match e with
       | ErrCollab _ 404 => true
       | _ => false
       end;
     CreateMemberName := fun name _ => String.append name "-0000";
     ClientURL := etcdutil.Name;
     PeerURLPairs := fun ms => (map_to_list ms).*1;
     podsToMemberSet := fun pods secure =>
       list_to_map
         ((fun p => (v1.Name p, etcdutil.mkMember (v1.Name p) "default" secure secure))
            <$> pods);
     backupServiceStatusToTPRBackupServiceStatu := Some |}.

(** An environment in which every call succeeds, but for the answers of the
    record client and of the deletion of a pod, which are arguments. *)
Definition envWith
    (update : spec.EtcdCluster -> error + spec.EtcdCluster)
    (delete : option error) (pods : list v1.Pod) : Env :=
  {| GenerateTLSConfig := fun _ _ _ => inr "tls";
     newBackupManager := fun _ _ => (Some 1, None);
     bm_setup := fun _ _ => None;
     bm_upgradeIfNeeded := fun _ _ => None;
     bm_updateSidecar := fun _ _ _ => None;
     bm_getStatus := fun _ _ => inr "ok";
     EtcdCRCli_Update := fun _ => update;
     Pods_List := fun _ _ _ => inr pods;
     Pods_Create := fun _ _ _ => None;
     Pods_Delete := fun _ _ _ _ => delete;
     PVC_Create := fun _ _ _ => None;
     CreateClientService := fun _ _ _ _ => None;
     CreatePeerService := fun _ _ _ _ => None;
     CheckHealth := fun _ _ _ => (true, None);
     uuid_New := fun _ => "token" |}.

(** The record client stores the record and returns it. *)
Definition env : Env := envWith inr None [].

(** The record client fails. *)
Definition envUpdateFails : Env :=
  envWith (fun _ => inl (ErrCollab "conflict" 409)) None [].

Definition status0 : spec.ClusterStatus :=
  spec.mkClusterStatus spec.ClusterPhaseNone "" 0 (spec.mkMembersStatus [] [])
    [] None.

(** The record client returns a record whose status is the empty one. *)
Definition envUpdateDropsStatus : Env :=
  envWith (fun cl => inr (spec.set_Status status0 cl)) None [].

Definition pkg : Pkg :=
  {| newSelfHostedSeedMember := mret None;
     migrateBootMember := mret None;
     disasterRecovery := fun _ => mret None;
     updateMembers := fun _ => mret None;
     reconcile := fun _ => mret None |}.

Definition policy : spec.BackupPolicy := spec.mkBackupPolicy "S3" "bucket" 300 5.

Definition clusterSpec (paused : bool) (backup : option spec.BackupPolicy) :
  spec.ClusterSpec :=
  spec.mkClusterSpec 3 "3.3.1" paused None None backup None.

(** The same desired state, with a host path for the pods' data. *)
Definition clusterSpecHostPath (paused : bool)
    (backup : option spec.BackupPolicy) : spec.ClusterSpec :=
  spec.mkClusterSpec 3 "3.3.1" paused None
    (Some (spec.mkPodPolicy None (Some "/var/etcd"))) backup None.

Definition record (sp : spec.ClusterSpec) (st : spec.ClusterStatus) :
  spec.EtcdCluster :=
  spec.mkEtcdCluster "example" "default" "uid-1" sp st.

Definition statusIn (p : spec.ClusterPhase) : spec.ClusterStatus :=
  spec.set_Phase p status0.

(** Records of the sample cluster: as created, with a host path in the pod
    policy, with a backup policy, paused, and in the phase Failed. *)
Definition plain : spec.EtcdCluster := record (clusterSpec false None) status0.
Definition withHostPath : spec.EtcdCluster :=
  record (clusterSpecHostPath false None) status0.
Definition withBackup : spec.EtcdCluster :=
  record (clusterSpec false (Some policy)) status0.
Definition paused : spec.EtcdCluster := record (clusterSpec true None) status0.
Definition failed : spec.EtcdCluster :=
  record (clusterSpec false None) (statusIn spec.ClusterPhaseFailed).
Definition running : spec.ClusterStatus := statusIn spec.ClusterPhaseRunning.

(** A controller whose record, at location 1, is [cl] and whose in-memory
    status is [st]. *)
Definition world (cl : spec.EtcdCluster) (st : spec.ClusterStatus) : World :=
  mkWorld (Some 1%positive) st 0 None None None {[ 1%positive := cl ]} [].

(** The same, with a second record, [new], at location 2. *)
Definition world2 (cl new : spec.EtcdCluster) (st : spec.ClusterStatus) : World :=
  mkWorld (Some 1%positive) st 0 None None None
    (<[ 2%positive := new ]> {[ 1%positive := cl ]}) [].

Definition pod (name uid : string) (phase : v1.PodPhase) : v1.Pod :=
  v1.mkPod name [v1.mkOwnerReference uid] (v1.mkPodStatus phase).

Definition pods : list v1.Pod :=
  [ pod "example-0000" "uid-1" v1.PodRunning;
    pod "example-0001" "uid-1" v1.PodPending;
    pod "example-0002" "uid-1" v1.PodFailed;
    pod "other-0000" "uid-2" v1.PodRunning;
    v1.mkPod "orphan" [] (v1.mkPodStatus v1.PodRunning) ].

Definition modifyEvent : clusterEvent :=
  mkClusterEvent eventModifyCluster (Some 2%positive).

(** A queue that holds [n] events, with the stop channel open. *)
Definition queue (n : nat) : Chans := mkChans (replicate n modifyEvent) 100 false.

(** The channels after the events [evs] have been sent, one by one, each
    taking the case of the [select] that enqueues. *)
Fixpoint sendAll (evs : list clusterEvent) (ch : Chans) : option Chans :=
  match evs with
  | [] => Some ch
  | ev :: rest =>
      match send ch ev with
      | Enqueued ch' _ :: _ => sendAll rest ch'
      | _ => None
      end
  end.

End sample.

(** ** Notions used in the further statements *)

(** The backup manager exists exactly when the policy [b] does. *)
Definition managerIffPolicy (w : World) (b : option spec.BackupPolicy) : Prop :=
  is_Some (bm w) <-> is_Some b.

(** The storage of a pod, by the pod policy of the spec: a volume claim
    comes before a host path, and without either the pod gets an empty
    directory. *)
Definition chosenVolume (sp : spec.ClusterSpec) : Volume :=
  match spec.Pod sp with
  | Some podPolicy =>
      match spec.PersistentVolumeClaimSpec podPolicy, spec.HostPath podPolicy with
      | Some claim, _ => VolumePVC claim
      | None, Some path => VolumeHostPath path
      | None, None => VolumeEmptyDir
      end
  | None => VolumeEmptyDir
  end.

(** The calls that create the seed member's pod. *)
Definition podCall (c : Call) : Prop :=
  match c with
  | CallUUIDNew | CallPVCCreate _ _ | CallPodsCreate _ _ => True
  | _ => False
  end.

(** The record client returns the spec it was sent. *)
Definition returnsSpec (E : Env) : Prop :=
  forall t sent returned,
    EtcdCRCli_Update E t sent = inr returned ->
    spec.Spec returned = spec.Spec sent.

(** [w'] comes from [w] without a call that creates a pod, with the
    members and the member counter of [w]. *)
Definition noPod (w w' : World) : Prop :=
  members w' = members w /\ memberCounter w' = memberCounter w /\
  exists calls,
    trace w' = trace w ++ calls /\ Forall (fun c => ¬ podCall c) calls.

(** ** Package controller: a backup to ABS *)

Module abs.

Record ABSBackupSource : Type := mkABSBackupSource {
  Path : string;
  ABSSecret : string }.

Record BackupSchedule : Type := mkBackupSchedule {
  BackupIntervalInSecond : Z;
  MaxBackups : Z }.

(** The backup manager that [backup.NewBackupManagerFromWriter] builds
    around the ABS writer of the client: what it was built from. *)
Record BackupManager : Type := mkBackupManager {
  bm_client : string;
  bm_tlsConfig : option string;
  bm_endpoints : list string;
  bm_namespace : string }.

(** The calls of [handleABS] to its collaborators. *)
Inductive Call : Type :=
| CallNewClientFromSecret (ns secret : string)
| CallGetTLSDataFromSecret (ns secret : string)
| CallNewTLSConfig (data : string)
| CallSaveSnap (bm : BackupManager) (path : string) (appendRev : bool)
| CallPurgeBackup (bm : BackupManager) (path : string) (maxBackups : Z).

(** Their answers, each a function of the calls made before it.  An answer
    without error carries a value: the client and the TLS data that
    [handleABS] reads fields of are not nil then. *)
Record Env : Type := mkEnv {
  NewClientFromSecret : list Call -> string -> string -> error + string;
  GetTLSDataFromSecret : list Call -> string -> string -> error + string;
  NewTLSConfig : list Call -> string -> error + string;
  SaveSnap :
    list Call -> BackupManager -> string -> bool -> error + (Z * string);
  PurgeBackup : list Call -> BackupManager -> string -> Z -> option error }.

(** How [handleABS] ends: it returns, or it dereferences a nil source. *)
Inductive ended : Type :=
| Returned (bs : option controller.BackupStatus) (err : option error)
| NilDereference.

Section HandleABS.

Context (E : Env).

(** The block that fills [tlsConfig]: the configuration (nil without a
    secret), or the error that [handleABS] returns, with the calls made up
    to there. *)
Definition tlsConfigOf (t : list Call) (clientTLSSecret namespace : string) :
  (error + option string) * list Call :=
  if bool_decide (String.length clientTLSSecret ≠ 0)%nat then
    let t1 := t ++ [CallGetTLSDataFromSecret namespace clientTLSSecret] in
    match GetTLSDataFromSecret E t namespace clientTLSSecret with
    | inl err =>
        (inl (ErrorfErr "failed to get TLS data from secret (%v): %v"
                [clientTLSSecret] err), t1)
    | inr d =>
        match NewTLSConfig E t1 d with
        | inl err =>
            (inl (ErrorfErr "failed to constructs tls config: %v" [] err),
             t1 ++ [CallNewTLSConfig d])
        | inr cfg => (inr (Some cfg), t1 ++ [CallNewTLSConfig d])
        end
    end
  else (inr None, t).

(** [handleABS], with the calls it made. *)
Definition handleABS (s : option ABSBackupSource) (sch : BackupSchedule)
    (endpoints : list string) (clientTLSSecret namespace : string) :
  ended * list Call :=
  match s with
  | None => (NilDereference, [])
  | Some src =>
      let t0 := [CallNewClientFromSecret namespace (ABSSecret src)] in
      match NewClientFromSecret E [] namespace (ABSSecret src) with
      | inl err => (Returned None (Some err), t0)
      | inr cli =>
          match tlsConfigOf t0 clientTLSSecret namespace with
          | (inl err, t) => (Returned None (Some err), t)
          | (inr tlsConfig, t) =>
              let bm := mkBackupManager cli tlsConfig endpoints namespace in
              let appendRev := bool_decide (0 < BackupIntervalInSecond sch) in
              let t1 := t ++ [CallSaveSnap bm (Path src) appendRev] in
              match SaveSnap E t bm (Path src) appendRev with
              | inl err =>
                  (Returned None
                     (Some (ErrorfErr "failed to save snapshot (%v)" [] err)),
                   t1)
              | inr (rev, etcdVersion) =>
                  let t2 := t1 ++ [CallPurgeBackup bm (Path src)
                                     (MaxBackups sch)] in
                  match PurgeBackup E t1 bm (Path src) (MaxBackups sch) with
                  | Some err =>
                      (Returned None
                         (Some (ErrorfErr "failed to purge backups (%v)" []
                                  err)),
                       t2)
                  | None =>
                      (Returned
                         (Some (controller.mkBackupStatus etcdVersion rev))
                         None,
                       t2)
                  end
              end
          end
      end
  end.

End HandleABS.

End abs.

(** ** Further sample inputs *)

Module scenario.

(** The library of [sample], with a validation that rejects a cluster of
    no member. *)
Definition libStrict : Lib :=
  {| Validate := fun sp =>
       if bool_decide (0 < spec.Size sp) then None
       else Some (ErrNew "spec: cluster size must be positive");
     IsSecurePeer := IsSecurePeer sample.lib;
     IsSecureClient := IsSecureClient sample.lib;
     AsOwner := AsOwner sample.lib;
     Copy := Copy sample.lib;
     SetPhase := SetPhase sample.lib;
     SetReason := SetReason sample.lib;
     PauseControl := PauseControl sample.lib;
     Control := Control sample.lib;
     AppendScalingUpCondition := AppendScalingUpCondition sample.lib;
     errCreatedCluster := errCreatedCluster sample.lib;
     isFatalError := isFatalError sample.lib;
     Error_string := Error_string sample.lib;
     IsKubernetesResourceNotFoundError :=
       IsKubernetesResourceNotFoundError sample.lib;
     CreateMemberName := CreateMemberName sample.lib;
     ClientURL := ClientURL sample.lib;
     PeerURLPairs := PeerURLPairs sample.lib;
     podsToMemberSet := podsToMemberSet sample.lib;
     backupServiceStatusToTPRBackupServiceStatu :=
       backupServiceStatusToTPRBackupServiceStatu sample.lib |}.

(** A record that asks for no member. *)
Definition empty : spec.EtcdCluster :=
  sample.record (spec.mkClusterSpec 0 "3.3.1" false None None None None)
    sample.status0.

(** A record whose pod policy has both a claim for a persistent volume and a
    host path. *)
Definition bothVolumes : spec.EtcdCluster :=
  sample.record
    (spec.mkClusterSpec 3 "3.3.1" false None
       (Some (spec.mkPodPolicy (Some "10Gi") (Some "/var/etcd"))) None None)
    sample.status0.

(** A record in the phase Creating. *)
Definition creating : spec.EtcdCluster :=
  sample.record (sample.clusterSpec false None)
    (sample.statusIn spec.ClusterPhaseCreating).

(** The package of [sample], with a disaster recovery that finds no
    backup. *)
Definition pkgNoBackup : Pkg :=
  {| newSelfHostedSeedMember := mret None;
     migrateBootMember := mret None;
     disasterRecovery := fun _ => mret (Some sample.errNoBackupExist);
     updateMembers := fun _ => mret None;
     reconcile := fun _ => mret None |}.

(** A store that holds the record in the phase Creating. *)
Definition heap : gmap loc spec.EtcdCluster := {[ 1%positive := creating ]}.

Definition deleteEvent : clusterEvent := mkClusterEvent eventDeleteCluster None.

Definition seedName : string := "example-0000".

Definition seed : etcdutil.Member :=
  etcdutil.mkMember seedName "default" false false.

End scenario.

(** ** Running the methods *)

(** Unfolding the monad. *)
Ltac munfold :=
  unfold withBM, modifyStatus in *;
  unfold mbind, M_bind, mret, M_ret, get, modify, panic, call in *.

Lemma bind_run {A B} (m : M A) (f : A -> M B) w :
  (m ≫= f) w =
  match m w with
  | (Ret a, w') => f a w'
  | (Panic msg, w') => (Panic msg, w')
  end.
Proof. reflexivity. Qed.

Lemma theCluster_inv w cl :
  theCluster w = Some cl ->
  exists l, cluster w = Some l /\ store w !! l = Some cl.
Proof.
  unfold theCluster. destruct (cluster w) as [l|]; cbn; [|done]. eauto.
Qed.

Lemma derefCluster_run w cl :
  theCluster w = Some cl -> derefCluster w = (Ret cl, w).
Proof.
  intros (l & Hl & Hs)%theCluster_inv.
  unfold derefCluster, load. munfold. rewrite Hl, Hs. done.
Qed.

(** [updateCRStatus], by the comparison of the two statuses. *)
Lemma updateCRStatus_equal E w cl :
  theCluster w = Some cl ->
  spec.Status cl = status w -> updateCRStatus E w = (Ret None, w).
Proof.
  intros Hc Heq. unfold updateCRStatus.
  rewrite bind_run, (derefCluster_run _ _ Hc). munfold.
  rewrite bool_decide_eq_true_2; done.
Qed.

Lemma updateCRStatus_differ E w l cl :
  cluster w = Some l -> store w !! l = Some cl ->
  spec.Status cl ≠ status w ->
  let sent := spec.set_Status (status w) cl in
  updateCRStatus E w =
  match EtcdCRCli_Update E (trace w) sent with
  | inl err =>
      (Ret (Some (ErrorfErr "failed to update CR status: %v" [] err)),
       written l sent w)
  | inr returned => (Ret None, adopted returned (written l sent w))
  end.
Proof.
  intros Hl Hs Hne sent. unfold updateCRStatus.
  rewrite bind_run, (derefCluster_run w cl) by (unfold theCluster; rewrite Hl; done).
  munfold. rewrite bool_decide_eq_false_2 by done.
  unfold load, storeAt, derefCluster. munfold. rewrite Hl, Hs. cbn.
  rewrite Hs. cbn. unfold load. cbn. rewrite Hl. rewrite lookup_insert_eq.
  fold sent. unfold written, adopted. cbn.
  destruct (EtcdCRCli_Update E (trace w) sent); reflexivity.
Qed.

Lemma adopted_theCluster returned w :
  theCluster (adopted returned w) = Some returned.
Proof. unfold theCluster, adopted. cbn. apply lookup_insert_eq. Qed.

Lemma written_theCluster l sent w :
  cluster w = Some l -> theCluster (written l sent w) = Some sent.
Proof. intros Hl. unfold theCluster, written. cbn. rewrite Hl. cbn. apply lookup_insert_eq. Qed.

Lemma tlsOnly_theCluster w w1 : tlsOnly w w1 -> theCluster w1 = theCluster w.
Proof. intros (Hc & _ & _ & _ & _ & Hs & _). unfold theCluster. by rewrite Hc, Hs. Qed.

Lemma isSecureClient_run L w cl :
  theCluster w = Some cl ->
  isSecureClient L w = (Ret (IsSecureClient L (spec.TLS (spec.Spec cl))), w).
Proof.
  intros Hc. unfold isSecureClient. rewrite bind_run, (derefCluster_run _ _ Hc). done.
Qed.

(** [refreshTLSConfig] returns and touches the TLS configuration only. *)
Lemma refreshTLSConfig_run L E w cl :
  theCluster w = Some cl -> secureHasStatic L cl ->
  exists r w1, refreshTLSConfig L E w = (Ret r, w1) /\ tlsOnly w w1.
Proof.
  intros Hc Hs. unfold refreshTLSConfig.
  rewrite bind_run, (isSecureClient_run _ _ _ Hc).
  destruct (IsSecureClient L (spec.TLS (spec.Spec cl))) eqn:Hsec.
  - destruct (Hs Hsec) as [static Hst].
    rewrite bind_run, (derefCluster_run _ _ Hc), Hst.
    munfold.
    destruct (GenerateTLSConfig E (trace w) (spec.OperatorSecret static)
                (spec.Namespace cl)) as [err|cfg].
    + eexists _, _. split; [reflexivity|]. unfold tlsOnly. cbn. naive_solver.
    + eexists _, _. split; [reflexivity|]. unfold tlsOnly. cbn. naive_solver.
  - eexists _, _. split; [reflexivity|]. unfold tlsOnly. naive_solver.
Qed.

(** Inversion of a computation that returned. *)
Lemma bind_ret_inv {A B} (m : M A) (f : A -> M B) w b w2 :
  (m ≫= f) w = (Ret b, w2) ->
  exists a w1, m w = (Ret a, w1) /\ f a w1 = (Ret b, w2).
Proof.
  rewrite bind_run. destruct (m w) as [[a|msg] w1]; [eauto|done].
Qed.

Lemma mret_inv {A} (a b : A) w w1 :
  mret (M := M) a w = (Ret b, w1) -> a = b /\ w = w1.
Proof. unfold mret, M_ret. by intros [= -> ->]. Qed.

Ltac minv :=
  repeat match goal with
  | H : (_ ≫= _) _ = (Ret _, _) |- _ =>
      apply bind_ret_inv in H; destruct H as (? & ? & ? & H)
  | H : mret _ _ = (Ret _, _) |- _ =>
      apply mret_inv in H; destruct H as [? ?]; simplify_eq
  | H : panic _ _ = (Ret _, _) |- _ => discriminate H
  | H : (if ?b then _ else _) _ = (Ret _, _) |- _ => destruct b eqn:?
  | H : (match ?x with _ => _ end) _ = (Ret _, _) |- _ => destruct x eqn:?
  | H : (match ?x with _ => _ end) = (Ret _, _) |- _ => destruct x eqn:?
  end.

Ltac mcases := repeat (case_match; simplify_eq/=); try done.

(** *** The reason of a fatal error stays recorded across rounds *)

Lemma refreshTLSConfig_status L E w r w1 :
  refreshTLSConfig L E w = (r, w1) -> status w1 = status w.
Proof.
  unfold refreshTLSConfig, isSecureClient, derefCluster, load. munfold.
  intros H. mcases.
Qed.

Lemma pollPods_status E w r w1 :
  pollPods E w = (r, w1) -> status w1 = status w.
Proof.
  unfold pollPods, derefCluster, load. munfold.
  intros H. mcases.
Qed.

Lemma onEvent_no_continue L E ev rerr w r w1 :
  onEvent L E ev rerr w = (Ret (Continue r), w1) -> False.
Proof.
  unfold onEvent. intros H. minv; try discriminate.
Qed.

Lemma onTick_continue L E P rerr w r w1 :
  onTick L E P rerr w = (Ret (Continue r), w1) ->
  r = rerr /\
  (status w1 = PauseControl L (status w) \/ status w1 = Control L (status w)).
Proof.
  unfold onTick. intros H. minv; try discriminate.
  all: repeat match goal with
       | H : refreshTLSConfig _ _ _ = _ |- _ => apply refreshTLSConfig_status in H
       | H : pollPods _ _ = _ |- _ => apply pollPods_status in H
       | H : derefCluster _ = _ |- _ => unfold derefCluster, load in H; munfold; mcases
       end.
  all: try (unfold modifyStatus, modify in *; simplify_eq/=).
  all: try (split; [congruence|]).
  all: first [left; congruence | right; congruence].
Qed.

Lemma afterSelect_run L rerr w :
  isFatalError L None = false ->
  afterSelect L rerr w =
  (Ret tt,
   match rerr with
   | Some e =>
       if isFatalError L (Some e)
       then set_status (SetReason L (Error_string L e) (status w)) w
       else w
   | None => w
   end).
Proof.
  intros Hnil. unfold afterSelect.
  destruct rerr as [e|]; [|by rewrite Hnil].
  by destruct (isFatalError L (Some e)).
Qed.

Lemma afterSelect_reasonRecorded L rerr w u w' :
  LibLaws L -> afterSelect L rerr w = (Ret u, w') -> reasonRecorded L rerr w'.
Proof.
  intros HL. rewrite afterSelect_run by apply HL.
  intros Heq e -> Hf. rewrite Hf in Heq. injection Heq as Heq. subst w'. cbn.
  apply (SetReason_idem L HL).
Qed.

Lemma round_reasonRecorded L E P i rerr w rerr' w' :
  LibLaws L -> reasonRecorded L rerr w ->
  round L E P i rerr w = (Ret (Some rerr'), w') ->
  reasonRecorded L rerr' w'.
Proof.
  intros HL Hinv H. unfold round in H.
  apply bind_ret_inv in H as (fl & w1 & Hfl & H).
  destruct fl as [r|r|].
  - apply bind_ret_inv in H as (u & w2 & Ha & H).
    apply mret_inv in H as [[= <-] <-].
    eapply afterSelect_reasonRecorded; eauto.
  - apply mret_inv in H as [[= <-] <-].
    destruct i as [ev|].
    + by apply onEvent_no_continue in Hfl.
    + apply onTick_continue in Hfl as [-> Hst].
      intros e -> Hf. specialize (Hinv e eq_refl Hf).
      destruct Hst as [-> | ->].
      * rewrite (SetReason_PauseControl L HL). by rewrite Hinv.
      * rewrite (SetReason_Control L HL). by rewrite Hinv.
  - by apply mret_inv in H as [? _].
Qed.

(** The rounds of [run] start in states of [loopHead]. *)
Lemma rounds_loopHead L E P ins rerr w rerr' w' :
  loopHead L E P rerr w ->
  rounds L E P ins rerr w = (Ret (Some rerr'), w') ->
  loopHead L E P rerr' w'.
Proof.
  revert rerr w. induction ins as [|i ins IH]; intros rerr w Hhead Hrun.
  - apply mret_inv in Hrun as [[= <-] <-]. done.
  - cbn [rounds] in Hrun.
    apply bind_ret_inv in Hrun as ([r|] & w1 & Hround & Hrest).
    + eapply IH; [|done]. by eapply loopHead_next.
    + by apply mret_inv in Hrest as [? _].
Qed.

Lemma run_loopHead L E P ins w rerr' w' :
  run L E P ins w = (Ret (Some rerr'), w') -> loopHead L E P rerr' w'.
Proof.
  unfold run. intros Hrun.
  apply bind_ret_inv in Hrun as (u & w1 & _ & Hrun).
  apply bind_ret_inv in Hrun as (e & w2 & _ & Hrun).
  eapply rounds_loopHead; [apply loopHead_first|done].
Qed.

Lemma loopHead_reasonRecorded L E P rerr w :
  LibLaws L -> loopHead L E P rerr w -> reasonRecorded L rerr w.
Proof.
  intros HL. induction 1 as [w | i rerr w rerr' w' _ IH Hr].
  - intros e [=].
  - eapply round_reasonRecorded; eauto.
Qed.

(** *** Modify events *)

Lemma set_status_id w : set_status (status w) w = w.
Proof. by destruct w. Qed.

Lemma isSpecEqual_true s1 s2 :
  isSpecEqual s1 s2 = true <->
  spec.Size s1 = spec.Size s2 /\ spec.Version s1 = spec.Version s2 /\
  spec.Paused s1 = spec.Paused s2 /\ spec.Backup s1 = spec.Backup s2.
Proof.
  unfold isSpecEqual, isBackupPolicyEqual.
  repeat case_bool_decide; cbn; intuition congruence.
Qed.

(** A Modify event, up to the comparison of the specs. *)
Lemma onEvent_modify L E ev rerr w l new cur :
  typ ev = eventModifyCluster -> ev_cluster ev = Some l ->
  store w !! l = Some new -> theCluster w = Some cur ->
  secureHasStatic L cur ->
  exists w1, tlsOnly w w1 /\
    onEvent L E ev rerr w =
    if isSpecEqual (spec.Spec new) (spec.Spec cur)
    then (Ret (AfterSelect rerr), w1)
    else
      let ob := spec.Backup (spec.Spec cur) in
      let nb := spec.Backup (spec.Spec new) in
      let w2 := set_cluster (Some l) w1 in
      if isBackupPolicyEqual ob nb then (Ret (AfterSelect rerr), w2)
      else
        match updateBackupPolicy E ob nb w2 with
        | (Ret (Some e), w3) =>
            (Ret Return,
             set_status (SetReason L (Error_string L e) (status w3)) w3)
        | (Ret None, w3) => (Ret (AfterSelect rerr), w3)
        | (Panic msg, w3) => (Panic msg, w3)
        end.
Proof.
  intros Ht Hev Hnew Hcur Hs.
  destruct (refreshTLSConfig_run L E w cur Hcur Hs) as (r & w1 & Hr & Hf).
  exists w1. split; [done|]. unfold onEvent.
  rewrite Ht, bool_decide_eq_true_2 by done.
  rewrite bind_run, Hr, bind_run. unfold load at 1. rewrite Hev.
  destruct Hf as (Hc & Hst & Hmc & Hms & Hbm & Hsto & Htr).
  rewrite Hsto, Hnew.
  rewrite bind_run, (derefCluster_run w1 cur)
    by (unfold theCluster in *; by rewrite Hc, Hsto).
  destruct (isSpecEqual (spec.Spec new) (spec.Spec cur)); [done|].
  rewrite bind_run. unfold modify at 1. cbn zeta.
  destruct (isBackupPolicyEqual _ _); cbn [negb]; [done|].
  rewrite bind_run.
  destruct (updateBackupPolicy E _ _ _) as [[[e|]|msg] w3]; done.
Qed.

Lemma round_afterSelect L E P i rerr w r w1 :
  isFatalError L None = false ->
  (match i with
   | InEvent event => onEvent L E event rerr
   | InTick => onTick L E P rerr
   end) w = (Ret (AfterSelect r), w1) ->
  round L E P i rerr w =
  (Ret (Some r),
   match r with
   | Some e =>
       if isFatalError L (Some e)
       then set_status (SetReason L (Error_string L e) (status w1)) w1
       else w1
   | None => w1
   end).
Proof.
  intros Hnil H. unfold round. rewrite bind_run, H, bind_run.
  by rewrite afterSelect_run.
Qed.

Lemma round_modify_equal L E P ev rerr w l new cur :
  LibLaws L -> reasonRecorded L rerr w ->
  typ ev = eventModifyCluster -> ev_cluster ev = Some l ->
  store w !! l = Some new -> theCluster w = Some cur ->
  secureHasStatic L cur ->
  isSpecEqual (spec.Spec new) (spec.Spec cur) = true ->
  exists w1, tlsOnly w w1 /\
    round L E P (InEvent ev) rerr w = (Ret (Some rerr), w1).
Proof.
  intros HL Hinv Ht Hev Hnew Hcur Hs Heq.
  destruct (onEvent_modify L E ev rerr w l new cur) as (w1 & Hf & Hrun); try done.
  rewrite Heq in Hrun. exists w1. split; [done|].
  rewrite (round_afterSelect L E P _ _ _ rerr w1); [|apply HL|done].
  f_equal. destruct rerr as [e|]; [|done].
  destruct (isFatalError L (Some e)) eqn:Hfatal; [|done].
  destruct Hf as (_ & Hst & _). rewrite Hst, (Hinv e eq_refl Hfatal), <- Hst.
  apply set_status_id.
Qed.

(** The three transitions of [updateBackupPolicy]. *)
Lemma updateBackupPolicy_construct E p w cl :
  theCluster w = Some cl ->
  updateBackupPolicy E None (Some p) w =
  let w1 := called (CallNewBackupManager cl) w in
  match newBackupManager E (trace w) cl with
  | (b, Some e) => (Ret (Some e), set_bm b w1)
  | (Some h, None) =>
      (Ret (bm_setup E (trace w1) h), called (CallBMSetup h) (set_bm (Some h) w1))
  | (None, None) => (Panic nilDeref, set_bm None w1)
  end.
Proof.
  intros Hc. unfold updateBackupPolicy.
  rewrite bind_run, (derefCluster_run _ _ Hc). munfold. cbn.
  destruct (newBackupManager E (trace w) cl) as [[h|] [e|]]; done.
Qed.

Lemma updateBackupPolicy_drop E p w h :
  bm w = Some h ->
  updateBackupPolicy E (Some p) None w =
  (Ret None, set_bm None (called (CallBMDeleteBackupSidecar h) w)).
Proof. intros Hb. unfold updateBackupPolicy. munfold. cbn. by rewrite Hb. Qed.

Lemma updateBackupPolicy_sidecar E p q w h cl :
  bm w = Some h -> theCluster w = Some cl ->
  updateBackupPolicy E (Some p) (Some q) w =
  (Ret (bm_updateSidecar E (trace w) h cl), called (CallBMUpdateSidecar h cl) w).
Proof.
  intros Hb Hc. unfold updateBackupPolicy. munfold. cbn. rewrite Hb.
  by rewrite (derefCluster_run _ _ Hc).
Qed.

(** *** Pods *)

(** A round of the loop of [pollPods] appends the pod to the list of its
    phase when the pod is the cluster's. *)
Lemma pollPods_round_spec uid running pending pod :
  pollPods_round uid (running, pending) pod =
  (running ++ filter (fun p => ours uid p /\ inPhase v1.PodRunning p) [pod],
   pending ++ filter (fun p => ours uid p /\ inPhase v1.PodPending p) [pod]).
Proof.
  unfold pollPods_round. rewrite !filter_cons, !filter_nil.
  repeat case_decide; unfold ours, inPhase in *;
    destruct (v1.OwnerReferences pod) as [|o os]; cbn in *;
    repeat case_bool_decide; rewrite ?app_nil_r; try done; try lia;
    unfold v1.PodRunning, v1.PodPending in *; exfalso;
    first [ intuition congruence
          | match goal with H : ¬ (_ ∧ _) |- _ => apply H; split; congruence end ].
Qed.

Lemma pollPods_loop uid items running pending :
  foldl (pollPods_round uid) (running, pending) items =
  (running ++ filter (fun p => ours uid p /\ inPhase v1.PodRunning p) items,
   pending ++ filter (fun p => ours uid p /\ inPhase v1.PodPending p) items).
Proof.
  revert running pending.
  induction items as [|pod items IH]; intros running pending; cbn [foldl].
  - by rewrite !filter_nil, !app_nil_r.
  - rewrite pollPods_round_spec, IH.
    rewrite <- !(assoc_L (++)), <- !filter_app. done.
Qed.

Lemma pollPods_run E w cl :
  theCluster w = Some cl ->
  pollPods E w =
  (Ret match Pods_List E (trace w) (spec.Namespace cl) (spec.Name cl) with
       | inl err =>
           ([], [], Some (ErrorfErr "failed to list running pods: %v" [] err))
       | inr items =>
           (filter (fun p => ours (spec.UID cl) p /\ inPhase v1.PodRunning p) items,
            filter (fun p => ours (spec.UID cl) p /\ inPhase v1.PodPending p) items,
            None)
       end,
   called (CallPodsList (spec.Namespace cl) (spec.Name cl)) w).
Proof.
  intros Hc. unfold pollPods.
  rewrite bind_run, (derefCluster_run _ _ Hc). munfold.
  destruct (Pods_List _ _ _ _) as [err|items]; [done|].
  rewrite (derefCluster_run _ cl) by done.
  by rewrite pollPods_loop.
Qed.

Lemma removePod_run L E name w cl :
  theCluster w = Some cl ->
  removePod L E name w =
  (Ret match Pods_Delete E (trace w) (spec.Namespace cl) name 5 with
       | Some e => if IsKubernetesResourceNotFoundError L e then None else Some e
       | None => None
       end,
   called (CallPodsDelete (spec.Namespace cl) name 5) w).
Proof.
  intros Hc. unfold removePod.
  rewrite bind_run, (derefCluster_run _ _ Hc). munfold.
  unfold podTerminationGracePeriod.
  destruct (Pods_Delete _ _ _ _ _) as [e|]; [|done].
  by destruct (IsKubernetesResourceNotFoundError L e).
Qed.

(** *** Setup *)

Lemma refreshTLSConfig_frame L E w r w1 :
  refreshTLSConfig L E w = (r, w1) -> tlsOnly w w1.
Proof.
  unfold refreshTLSConfig, isSecureClient, derefCluster, load, tlsOnly. munfold.
  intros H. repeat (case_match; simplify_eq/=); eauto 10.
Qed.

Lemma setup_creating L E P w cl :
  theCluster w = Some cl -> Validate L (spec.Spec cl) = None ->
  spec.Phase (status w) = spec.ClusterPhaseCreating ->
  setup L E P w = (Ret (Some (errCreatedCluster L)), w).
Proof.
  intros Hc Hv Hp. unfold setup.
  rewrite bind_run, (derefCluster_run _ _ Hc), Hv. munfold. by rewrite Hp.
Qed.

Lemma setup_failed L E P w l cl :
  cluster w = Some l -> store w !! l = Some cl ->
  Validate L (spec.Spec cl) = None ->
  spec.Phase (status w) = spec.ClusterPhaseFailed ->
  spec.Phase (spec.Status cl) = spec.ClusterPhaseFailed ->
  let st := spec.set_Phase spec.ClusterPhaseRunning (status w) in
  let sent := spec.set_Status st cl in
  setup L E P w =
  (Panic failedPanic,
   match EtcdCRCli_Update E (trace w) sent with
   | inl _ => written l sent (set_status st w)
   | inr returned => adopted returned (written l sent (set_status st w))
   end).
Proof.
  intros Hl Hs Hv Hp Hpp st sent. unfold setup.
  rewrite bind_run, (derefCluster_run w cl), Hv
    by (unfold theCluster; by rewrite Hl).
  rewrite bind_run. unfold get at 1. rewrite Hp.
  rewrite !bind_run. unfold modifyStatus, modify at 1. fold st.
  rewrite bind_run.
  rewrite (updateCRStatus_differ E (set_status st w) l cl); try done.
  - cbn. fold sent. by destruct (EtcdCRCli_Update E (trace w) sent).
  - cbn. unfold st. intros Heq. rewrite Heq in Hpp. done.
Qed.

Lemma tlsOnly_calls w w1 :
  tlsOnly w w1 ->
  exists calls, trace w1 = trace w ++ calls /\ Forall preludeCall calls.
Proof.
  intros (_ & _ & _ & _ & _ & _ & [-> | (s & ns & ->)]).
  - exists []. by rewrite app_nil_r.
  - eexists. split; [done|]. by repeat constructor.
Qed.

Lemma setup_running_frame L E P w r w' :
  spec.Phase (status w) = spec.ClusterPhaseRunning ->
  setup L E P w = (r, w') ->
  cluster w' = cluster w /\ status w' = status w /\ store w' = store w /\
  members w' = members w /\ memberCounter w' = memberCounter w /\
  exists calls, trace w' = trace w ++ calls /\ Forall preludeCall calls.
Proof.
  intros Hp. unfold setup. rewrite bind_run.
  destruct (derefCluster w) as [[cl|msg] w0] eqn:Hd.
  2:{ unfold derefCluster, load in Hd. munfold. intros [= <- <-].
      repeat case_match; simplify_eq; repeat split; try done;
        exists []; by rewrite app_nil_r. }
  assert (w0 = w) as ->.
  { unfold derefCluster, load in Hd. munfold. repeat case_match; by simplify_eq. }
  destruct (Validate L (spec.Spec cl)).
  { intros [= <- <-]. repeat split; try done. exists []; by rewrite app_nil_r. }
  rewrite bind_run. unfold get at 1. rewrite Hp.
  rewrite bind_run. unfold mret at 1, M_ret at 1.
  rewrite bind_run.
  destruct (refreshTLSConfig L E w) as [[[e|]|msg] w1] eqn:Hr;
    apply refreshTLSConfig_frame in Hr;
    pose proof (tlsOnly_calls _ _ Hr) as (calls0 & Htr & Hall);
    destruct Hr as (Hc1 & Hs1 & Hmc1 & Hms1 & Hb1 & Hst1 & _).
  1,3: intros [= <- <-]; repeat split; try done; eauto.
  rewrite bind_run.
  destruct (derefCluster w1) as [[cl1|msg] w2] eqn:Hd1;
    unfold derefCluster, load in Hd1; munfold.
  2:{ intros [= <- <-]. repeat case_match; simplify_eq; repeat split; try congruence; eauto. }
  assert (w2 = w1) as -> by (repeat case_match; by simplify_eq).
  clear Hd1. cbn.
  destruct (spec.Backup (spec.Spec cl1)); cbn.
  - destruct (newBackupManager E (trace w1) cl1) as [[h|] [e|]]; munfold; cbn;
      intros Hfin.
    all: repeat case_match; simplify_eq/=; repeat split; try done.
    all: rewrite Htr, <- ?(assoc_L (++)); eexists; split; [done|].
    all: rewrite ?Forall_app; repeat split; try done; by repeat constructor.
  - intros [= <- <-]. repeat split; try done. eauto.
Qed.

(** [setup] from the switch on, for the two phases that go past it. *)
Lemma setup_past_switch L E P w cl w1 (shouldCreateCluster : bool) :
  theCluster w = Some cl -> Validate L (spec.Spec cl) = None ->
  spec.Phase (status w) =
    (if shouldCreateCluster then spec.ClusterPhaseNone
     else spec.ClusterPhaseRunning) ->
  refreshTLSConfig L E w = (Ret None, w1) ->
  setup L E P w =
  match spec.Backup (spec.Spec cl) with
  | None => if shouldCreateCluster then create L E P w1 else (Ret None, w1)
  | Some _ =>
      let w2 := called (CallNewBackupManager cl) w1 in
      match newBackupManager E (trace w1) cl with
      | (b, Some e) => (Ret (Some e), set_bm b w2)
      | (b, None) =>
          if shouldCreateCluster then create L E P (set_bm b w2)
          else
            match b with
            | Some h =>
                (Ret (bm_upgradeIfNeeded E (trace w2) h),
                 called (CallBMUpgradeIfNeeded h) (set_bm (Some h) w2))
            | None => (Panic nilDeref, set_bm None w2)
            end
      end
  end.
Proof.
  intros Hc Hv Hp Hr. unfold setup.
  rewrite bind_run, (derefCluster_run _ _ Hc), Hv.
  rewrite bind_run. unfold get at 1. rewrite Hp.
  assert (theCluster w1 = Some cl) as Hc1.
  { by rewrite (tlsOnly_theCluster w w1) by (by eapply refreshTLSConfig_frame). }
  destruct shouldCreateCluster.
  - rewrite bind_run. unfold mret at 1, M_ret at 1.
    rewrite bind_run, Hr, bind_run, (derefCluster_run _ _ Hc1).
    destruct (spec.Backup (spec.Spec cl)).
    + rewrite !bind_run. unfold call at 1. cbn zeta.
      destruct (newBackupManager E (trace w1) cl) as [b0 [e|]]; done.
    + done.
  - rewrite bind_run. unfold mret at 1, M_ret at 1.
    rewrite bind_run, Hr, bind_run, (derefCluster_run _ _ Hc1).
    destruct (spec.Backup (spec.Spec cl)).
    + rewrite !bind_run. unfold call at 1. cbn zeta.
      destruct (newBackupManager E (trace w1) cl) as [[h|] [e|]]; try done.
      munfold. cbn. by destruct (bm_upgradeIfNeeded E _ h).
    + done.
Qed.

(** ** The status reporter *)

(** C8.  When the in-memory status deep-equals the status of the cluster
    record, [updateCRStatus] returns nil, calls nobody and leaves the whole
    state as it is.  Otherwise it writes the status into the record and hands
    the record to the record client, once; when the client returns a record,
    that record becomes [c.cluster] and the result is nil; when the client
    fails, the result is the wrapped error. *)
Theorem updateCRStatus_writes_only_on_change E w l cl :
  cluster w = Some l -> store w !! l = Some cl ->
  (spec.Status cl = status w -> updateCRStatus E w = (Ret None, w)) /\
  (spec.Status cl ≠ status w ->
   let sent := spec.set_Status (status w) cl in
   (forall returned,
      EtcdCRCli_Update E (trace w) sent = inr returned ->
      updateCRStatus E w = (Ret None, adopted returned (written l sent w)) /\
      theCluster (adopted returned (written l sent w)) = Some returned /\
      trace (adopted returned (written l sent w)) =
        trace w ++ [CallCRUpdate sent]) /\
   (forall err,
      EtcdCRCli_Update E (trace w) sent = inl err ->
      updateCRStatus E w =
        (Ret (Some (ErrorfErr "failed to update CR status: %v" [] err)),
         written l sent w))).
Proof.
  intros Hl Hs. split.
  - intros Heq. apply (updateCRStatus_equal E w cl); [|done].
    unfold theCluster. by rewrite Hl.
  - intros Hne sent.
    pose proof (updateCRStatus_differ E w l cl Hl Hs Hne) as Hrun.
    cbn zeta in Hrun. fold sent in Hrun. split.
    + intros returned Hret. rewrite Hret in Hrun.
      split; [done|]. split; [apply adopted_theCluster|done].
    + intros err Herr. by rewrite Herr in Hrun.
Qed.

(** C9, as amended.  [updateCRStatus] writes the status into the record
    that [c.cluster] points to before it calls the record client.  So after
    a call that made no write or whose write failed, and after a successful
    write for which the client returned a record carrying the status it was
    sent, the record of [c.cluster] carries the in-memory status, and a
    second call with the same status makes no write: in particular a failed
    write is not tried again while the status stays the same, and it has
    changed the record that [c.cluster] still points to. *)
Theorem updateCRStatus_failed_write_not_retried E w l cl :
  cluster w = Some l -> store w !! l = Some cl ->
  (forall returned,
     spec.Status cl ≠ status w ->
     EtcdCRCli_Update E (trace w) (spec.set_Status (status w) cl) = inr returned ->
     spec.Status returned = status w) ->
  exists r w' cl',
    updateCRStatus E w = (Ret r, w') /\
    status w' = status w /\
    theCluster w' = Some cl' /\ spec.Status cl' = status w' /\
    updateCRStatus E w' = (Ret None, w') /\
    (forall err,
       spec.Status cl ≠ status w ->
       EtcdCRCli_Update E (trace w) (spec.set_Status (status w) cl) = inl err ->
       r = Some (ErrorfErr "failed to update CR status: %v" [] err) /\
       cluster w' = Some l /\
       store w' !! l = Some (spec.set_Status (status w) cl)).
Proof.
  intros Hl Hs Hecho.
  assert (theCluster w = Some cl) as Hc by (unfold theCluster; by rewrite Hl).
  destruct (decide (spec.Status cl = status w)) as [Heq|Hne].
  - exists None, w, cl. rewrite (updateCRStatus_equal E w cl Hc Heq).
    repeat split; done.
  - pose proof (updateCRStatus_differ E w l cl Hl Hs Hne) as Hrun.
    cbn zeta in Hrun.
    assert (Hecho' := fun returned => Hecho returned Hne). clear Hecho.
    destruct (EtcdCRCli_Update E (trace w) (spec.set_Status (status w) cl))
      as [err|returned].
    + eexists _, _, _. split; [exact Hrun|].
      assert (theCluster (written l (spec.set_Status (status w) cl) w) =
              Some (spec.set_Status (status w) cl)) as Hc'
        by (by apply written_theCluster).
      repeat split; try done.
      * by apply (updateCRStatus_equal E _ _ Hc').
      * congruence.
      * cbn. apply lookup_insert_eq.
    + eexists _, _, _. split; [exact Hrun|].
      pose proof (adopted_theCluster returned
                    (written l (spec.set_Status (status w) cl) w)) as Hc'.
      repeat split; try done.
      * by apply Hecho'.
      * apply (updateCRStatus_equal E _ _ Hc'). by apply Hecho'.
Qed.

(** ** The run loop *)

(** C5.  On a tick with [Spec.Paused] set, the round records the pause in
    the status ([PauseControl]) and goes to the next round with [rerr] as it
    was: the only call it can have made is the refresh of the TLS
    configuration (no pod is listed, created or deleted, no service is
    touched, nothing is written to the record), the members, the member
    counter, the backup manager, the record and the store are unchanged, and
    the methods of the other files ([disasterRecovery], [updateMembers],
    [reconcile]) have no part in the result. *)
Theorem paused_tick_skips_reconciliation L E rerr w cl :
  theCluster w = Some cl -> secureHasStatic L cl ->
  spec.Paused (spec.Spec cl) = true ->
  exists w',
    (forall P, round L E P InTick rerr w = (Ret (Some rerr), w')) /\
    status w' = PauseControl L (status w) /\
    cluster w' = cluster w /\ store w' = store w /\
    members w' = members w /\ memberCounter w' = memberCounter w /\
    bm w' = bm w /\
    (trace w' = trace w \/
     exists secret ns, trace w' = trace w ++ [CallGenerateTLSConfig secret ns]).
Proof.
  intros Hc Hs Hp.
  destruct (refreshTLSConfig_run L E w cl Hc Hs) as (r & w1 & Hr & Hf).
  exists (set_status (PauseControl L (status w1)) w1).
  destruct Hf as (Hcl & Hst & Hmc & Hms & Hbm & Hsto & Htr).
  split; [|by rewrite Hst].
  intros P. unfold round, onTick. rewrite !bind_run, Hr.
  rewrite bind_run, (derefCluster_run w1 cl), Hp
    by (unfold theCluster in *; by rewrite Hcl, Hsto).
  reflexivity.
Qed.

(** C3.  In every state in which the loop starts a round, a Modify event
    whose record has the size, the version, the paused flag and a
    deep-equal backup policy of the current one is ignored: the round goes
    on with the same [rerr], and [c.cluster], the store (so the record), the
    backup manager, the status, the members and the member counter are as
    before; at most the TLS configuration has been refreshed.  The same
    event applied once more leaves them unchanged again. *)
Theorem modify_with_equal_spec_is_ignored L E P rerr w ev l new cur :
  LibLaws L -> loopHead L E P rerr w ->
  typ ev = eventModifyCluster -> ev_cluster ev = Some l ->
  store w !! l = Some new -> theCluster w = Some cur ->
  secureHasStatic L cur ->
  spec.Size (spec.Spec new) = spec.Size (spec.Spec cur) ->
  spec.Version (spec.Spec new) = spec.Version (spec.Spec cur) ->
  spec.Paused (spec.Spec new) = spec.Paused (spec.Spec cur) ->
  spec.Backup (spec.Spec new) = spec.Backup (spec.Spec cur) ->
  exists w1 w2,
    round L E P (InEvent ev) rerr w = (Ret (Some rerr), w1) /\
    cluster w1 = cluster w /\ store w1 = store w /\ bm w1 = bm w /\
    status w1 = status w /\ tlsOnly w w1 /\
    round L E P (InEvent ev) rerr w1 = (Ret (Some rerr), w2) /\
    cluster w2 = cluster w1 /\ store w2 = store w1 /\ bm w2 = bm w1 /\
    status w2 = status w1 /\ tlsOnly w1 w2.
Proof.
  intros HL Hhead Ht Hev Hnew Hcur Hs Hsize Hver Hpaused Hbackup.
  assert (isSpecEqual (spec.Spec new) (spec.Spec cur) = true) as Heq
    by (by apply isSpecEqual_true).
  destruct (round_modify_equal L E P ev rerr w l new cur) as (w1 & Hf1 & Hr1);
    try done.
  { by eapply loopHead_reasonRecorded. }
  assert (loopHead L E P rerr w1) as Hhead1 by (by eapply loopHead_next).
  pose proof Hf1 as (Hc1 & Hst1 & _ & _ & Hb1 & Hsto1 & _).
  destruct (round_modify_equal L E P ev rerr w1 l new cur) as (w2 & Hf2 & Hr2);
    try done.
  { by eapply loopHead_reasonRecorded. }
  { by rewrite Hsto1. }
  { by rewrite (tlsOnly_theCluster w w1). }
  pose proof Hf2 as (Hc2 & Hst2 & _ & _ & Hb2 & Hsto2 & _).
  exists w1, w2.
  repeat match goal with
         | |- tlsOnly _ _ /\ _ => split; [assumption|]
         | |- tlsOnly _ _ => assumption
         | |- _ /\ _ => split; [done|]
         end.
Qed.

(** C4.  A Modify event whose spec differs from the current one makes the
    event's record the current one; [updateBackupPolicy] is then called only
    when the old and the new backup policy are not deep-equal, and with
    deep-equal policies the round ends there.  Called with policies that
    are not deep-equal, it takes one of three transitions and never the
    panic of its default branch: from nil to a policy it constructs the
    backup manager and runs its [setup]; from a policy to nil it deletes the
    backup sidecar and drops the manager; between two policies it calls
    [updateSidecar] with the new record.  When it returns an error, the loop
    sets the reason of the status to the error's message and [run]
    returns. *)
Theorem updateBackupPolicy_transitions L E P ev rerr w l new cur :
  typ ev = eventModifyCluster -> ev_cluster ev = Some l ->
  store w !! l = Some new -> theCluster w = Some cur ->
  secureHasStatic L cur ->
  isSpecEqual (spec.Spec new) (spec.Spec cur) = false ->
  let ob := spec.Backup (spec.Spec cur) in
  let nb := spec.Backup (spec.Spec new) in
  exists w1, tlsOnly w w1 /\
    let w2 := set_cluster (Some l) w1 in
    (ob = nb -> onEvent L E ev rerr w = (Ret (AfterSelect rerr), w2)) /\
    (ob ≠ nb ->
     ((ob = None /\ exists p, nb = Some p /\
       updateBackupPolicy E ob nb w2 =
       let w3 := called (CallNewBackupManager new) w2 in
       match newBackupManager E (trace w2) new with
       | (b, Some e) => (Ret (Some e), set_bm b w3)
       | (Some h, None) =>
           (Ret (bm_setup E (trace w3) h),
            called (CallBMSetup h) (set_bm (Some h) w3))
       | (None, None) => (Panic nilDeref, set_bm None w3)
       end) \/
      (nb = None /\ exists p, ob = Some p /\
       forall h, bm w = Some h ->
       updateBackupPolicy E ob nb w2 =
       (Ret None, set_bm None (called (CallBMDeleteBackupSidecar h) w2))) \/
      (exists p q, ob = Some p /\ nb = Some q /\
       forall h, bm w = Some h ->
       updateBackupPolicy E ob nb w2 =
       (Ret (bm_updateSidecar E (trace w2) h new),
        called (CallBMUpdateSidecar h new) w2))) /\
     (forall w3, updateBackupPolicy E ob nb w2 ≠
                 (Panic "unexpected backup spec comparison", w3)) /\
     (forall e w3,
        updateBackupPolicy E ob nb w2 = (Ret (Some e), w3) ->
        round L E P (InEvent ev) rerr w =
        (Ret None, set_status (SetReason L (Error_string L e) (status w3)) w3)) /\
     (forall w3,
        updateBackupPolicy E ob nb w2 = (Ret None, w3) ->
        onEvent L E ev rerr w = (Ret (AfterSelect rerr), w3))).
Proof.
  intros Ht Hev Hnew Hcur Hs Hne ob nb.
  destruct (onEvent_modify L E ev rerr w l new cur) as (w1 & Hf & Hrun);
    try done.
  rewrite Hne in Hrun. cbn zeta in Hrun. fold ob nb in Hrun.
  exists w1. split; [done|]. intros w2. fold w2 in Hrun.
  pose proof Hf as (Hc1 & _ & _ & _ & Hb1 & Hsto1 & _).
  assert (theCluster w2 = Some new) as Hc2.
  { unfold theCluster, w2. cbn. by rewrite Hsto1. }
  assert (bm w2 = bm w) as Hb2 by done.
  unfold isBackupPolicyEqual in Hrun. split.
  - intros Heq. by rewrite bool_decide_eq_true_2 in Hrun.
  - intros Hneq. rewrite bool_decide_eq_false_2 in Hrun by done.
    split; [|split; [|split]].
    + destruct ob as [p|], nb as [q|]; try done.
      * right. right. exists p, q. repeat split; try done.
        intros h Hh. apply updateBackupPolicy_sidecar; [congruence|done].
      * right. left. split; [done|]. exists p. split; [done|].
        intros h Hh. apply updateBackupPolicy_drop. congruence.
      * left. split; [done|]. exists q. split; [done|].
        by apply updateBackupPolicy_construct.
    + intros w3 Hpanic.
      destruct ob as [p|], nb as [q|]; try done; revert Hpanic;
        unfold updateBackupPolicy, derefCluster, load; munfold;
        intros Hpanic; repeat (case_match; simplify_eq/=).
    + intros e w3 Hup. rewrite Hup in Hrun.
      unfold round. by rewrite bind_run, Hrun.
    + intros w3 Hup. by rewrite Hup in Hrun.
Qed.

(** ** Setup *)

(** C1.  Once the spec is validated, [setup] dispatches on the phase of
    the status.  None: after the TLS refresh (and, with a backup policy,
    the construction of the backup manager, without [upgradeIfNeeded]) it
    goes on as [create].  Creating: it returns [errCreatedCluster] and
    leaves the state untouched, calling nobody.  Running: it creates
    nothing, whatever its result (status, store and members are untouched
    and it calls nobody but the TLS refresh, the constructor of the backup
    manager and [upgradeIfNeeded]), and with a backup policy, once the
    manager is constructed, it calls [upgradeIfNeeded] and returns its
    result.  Failed: it sets the phase to Running, hands the record with
    that status to the record client and panics, whatever the client
    answered. *)
Theorem setup_dispatches_on_phase L E P w l cl :
  cluster w = Some l -> store w !! l = Some cl ->
  Validate L (spec.Spec cl) = None ->
  (spec.Phase (status w) = spec.ClusterPhaseNone ->
   forall w1, refreshTLSConfig L E w = (Ret None, w1) ->
   match spec.Backup (spec.Spec cl) with
   | None => setup L E P w = create L E P w1
   | Some _ =>
       forall b, newBackupManager E (trace w1) cl = (b, None) ->
       setup L E P w =
       create L E P (set_bm b (called (CallNewBackupManager cl) w1))
   end) /\
  (spec.Phase (status w) = spec.ClusterPhaseCreating ->
   setup L E P w = (Ret (Some (errCreatedCluster L)), w)) /\
  (spec.Phase (status w) = spec.ClusterPhaseRunning ->
   (forall r w', setup L E P w = (r, w') ->
      cluster w' = cluster w /\ status w' = status w /\ store w' = store w /\
      members w' = members w /\ memberCounter w' = memberCounter w /\
      exists calls, trace w' = trace w ++ calls /\ Forall preludeCall calls) /\
   (forall w1 p h,
      refreshTLSConfig L E w = (Ret None, w1) ->
      spec.Backup (spec.Spec cl) = Some p ->
      newBackupManager E (trace w1) cl = (Some h, None) ->
      setup L E P w =
      (Ret (bm_upgradeIfNeeded E (trace w1 ++ [CallNewBackupManager cl]) h),
       called (CallBMUpgradeIfNeeded h)
         (set_bm (Some h) (called (CallNewBackupManager cl) w1))))) /\
  (spec.Phase (status w) = spec.ClusterPhaseFailed ->
   spec.Phase (spec.Status cl) = spec.ClusterPhaseFailed ->
   let st := spec.set_Phase spec.ClusterPhaseRunning (status w) in
   exists w',
     setup L E P w = (Panic failedPanic, w') /\
     status w' = st /\ spec.Phase (status w') = spec.ClusterPhaseRunning /\
     trace w' = trace w ++ [CallCRUpdate (spec.set_Status st cl)]).
Proof.
  intros Hl Hs Hv.
  assert (theCluster w = Some cl) as Hc by (unfold theCluster; by rewrite Hl).
  split; [|split; [|split]].
  - intros Hp w1 Hr.
    rewrite (setup_past_switch L E P w cl w1 true Hc Hv Hp Hr).
    destruct (spec.Backup (spec.Spec cl)) as [policy|]; [|done].
    intros b Hb. by rewrite Hb.
  - intros Hp. by apply (setup_creating L E P w cl).
  - intros Hp. split.
    + intros r w'. by apply setup_running_frame.
    + intros w1 p h Hr Hb Hn.
      rewrite (setup_past_switch L E P w cl w1 false Hc Hv Hp Hr).
      by rewrite Hb, Hn.
  - intros Hp Hpp st.
    rewrite (setup_failed L E P w l cl Hl Hs Hv Hp Hpp). fold st.
    eexists. split; [done|].
    by destruct (EtcdCRCli_Update E (trace w) (spec.set_Status st cl)).
Qed.

(** ** Pods *)

(** C6.  Of the pods that the platform lists, [pollPods] keeps those whose
    first owner reference carries the UID of the cluster; it returns the
    ones in phase Running and the ones in phase Pending as two lists, in
    the order of the listing, and no pod in another phase, or without a
    first owner of that UID, is in either. *)
Theorem pollPods_classifies E w cl items :
  theCluster w = Some cl ->
  Pods_List E (trace w) (spec.Namespace cl) (spec.Name cl) = inr items ->
  exists running pending,
    pollPods E w =
      (Ret (running, pending, None),
       called (CallPodsList (spec.Namespace cl) (spec.Name cl)) w) /\
    running =
      filter (fun p => ours (spec.UID cl) p /\ inPhase v1.PodRunning p) items /\
    pending =
      filter (fun p => ours (spec.UID cl) p /\ inPhase v1.PodPending p) items /\
    (forall pod, (pod ∈ running) <->
       pod ∈ items /\ ours (spec.UID cl) pod /\
       v1.Phase (v1.Status pod) = v1.PodRunning) /\
    (forall pod, (pod ∈ pending) <->
       pod ∈ items /\ ours (spec.UID cl) pod /\
       v1.Phase (v1.Status pod) = v1.PodPending) /\
    (forall pod,
       v1.Phase (v1.Status pod) ≠ v1.PodRunning ->
       v1.Phase (v1.Status pod) ≠ v1.PodPending ->
       (pod ∉ running) /\ (pod ∉ pending)).
Proof.
  intros Hc Hlist. eexists _, _.
  rewrite (pollPods_run E w cl Hc), Hlist.
  split; [reflexivity|]. split; [reflexivity|]. split; [reflexivity|].
  split; [|split].
  - intros pod. rewrite list_elem_of_filter. unfold inPhase. tauto.
  - intros pod. rewrite list_elem_of_filter. unfold inPhase. tauto.
  - intros pod Hr Hp. rewrite !list_elem_of_filter. unfold inPhase. tauto.
Qed.

(** C7.  [removePod] deletes the pod with a grace period of 5 seconds, in
    one call.  It returns nil when the platform deleted the pod and when the
    platform answered that the pod is not found; any other error of the
    deletion is returned as it is. *)
Theorem removePod_not_found_is_success L E name w cl :
  theCluster w = Some cl ->
  exists r,
    removePod L E name w =
      (Ret r, called (CallPodsDelete (spec.Namespace cl) name 5) w) /\
    podTerminationGracePeriod = 5 /\
    (Pods_Delete E (trace w) (spec.Namespace cl) name 5 = None -> r = None) /\
    (forall e,
       Pods_Delete E (trace w) (spec.Namespace cl) name 5 = Some e ->
       IsKubernetesResourceNotFoundError L e = true -> r = None) /\
    (forall e,
       Pods_Delete E (trace w) (spec.Namespace cl) name 5 = Some e ->
       IsKubernetesResourceNotFoundError L e = false -> r = Some e).
Proof.
  intros Hc. eexists. rewrite (removePod_run L E name w cl Hc).
  split; [reflexivity|]. split; [reflexivity|].
  split; [|split].
  - by intros ->.
  - by intros e -> ->.
  - by intros e -> ->.
Qed.

(** ** The event queue *)

(** C2, as amended.  [send] enqueues without blocking while the queue
    holds fewer events than its capacity (with a warning when the length
    after the send exceeds the threshold, 80 for the capacity 100), and it
    can return without enqueuing once the stop channel is closed; when the
    queue is full and the stop channel is open no case of the [select] is
    ready, and the caller of [Update] or [Delete] blocks. *)
Theorem send_ready_cases ch ev :
  (len ch < eventCh_cap ch ->
   let ch' := mkChans (eventCh ch ++ [ev]) (eventCh_cap ch) (stopCh_closed ch) in
   Enqueued ch' (bool_decide (warnThreshold (eventCh_cap ch) < len ch + 1))
     ∈ send ch ev) /\
  (stopCh_closed ch = true -> Stopped ∈ send ch ev) /\
  (blocks ch ev <-> eventCh_cap ch <= len ch /\ stopCh_closed ch = false) /\
  (forall cl, Update ch cl = send ch (mkClusterEvent eventModifyCluster cl)) /\
  Delete ch = send ch (mkClusterEvent eventDeleteCluster None) /\
  eventCh_cap New_chans = 100 /\ warnThreshold 100 = 80.
Proof.
  split; [|split; [|split; [|repeat split; intros; reflexivity]]].
  - intros Hlt ch'. unfold send.
    rewrite (bool_decide_eq_true_2 (len ch < eventCh_cap ch)) by done.
    fold ch'.
    replace (len ch') with (len ch + 1)
      by (unfold len, ch'; cbn [eventCh]; rewrite length_app; cbn [length]; lia).
    apply list_elem_of_here.
  - intros Hst. unfold send. rewrite Hst, elem_of_app.
    right. apply list_elem_of_here.
  - unfold blocks, send.
    case_bool_decide; destruct (stopCh_closed ch); cbn; split;
      try done; try (intros [? ?]; done); try lia.
Qed.

(** ** The dispatch of the backup operator *)

(** C10.  [handleBackup] returns (a backup status, or the handler's error)
    only for the storage types S3 and ABS, with what the handler of that
    type returned; for every other storage type it returns nothing:
    [logrus.Fatalf] ends the process. *)
Theorem handleBackup_fatal_on_other_storage
    (BackupStorageTypeS3 BackupStorageTypeABS : string)
    (handleS3 handleABS :
       option string -> list string -> string -> string ->
       option controller.BackupStatus * option error)
    (b : controller.Backup) (sp : controller.BackupSpec) :
  let run := controller.handleBackup BackupStorageTypeS3 BackupStorageTypeABS
               handleS3 handleABS b sp in
  let handled (r : option controller.BackupStatus * option error) :=
    match r with
    | (_, Some e) => (None, Some e)
    | (bs, None) => (bs, None)
    end in
  (controller.StorageType sp ≠ BackupStorageTypeS3 ->
   controller.StorageType sp ≠ BackupStorageTypeABS ->
   run = controller.Exits 1
           (String.append "unknown StorageType: " (controller.StorageType sp))) /\
  (forall r, run = controller.Returns r ->
     controller.StorageType sp = BackupStorageTypeS3 \/
     controller.StorageType sp = BackupStorageTypeABS) /\
  (controller.StorageType sp = BackupStorageTypeS3 ->
   run = controller.Returns
           (handled (handleS3 (controller.S3 sp) (controller.EtcdEndpoints sp)
                       (controller.ClientTLSSecret sp) (controller.namespace b)))) /\
  (controller.StorageType sp ≠ BackupStorageTypeS3 ->
   controller.StorageType sp = BackupStorageTypeABS ->
   run = controller.Returns
           (handled (handleABS (controller.ABS sp) (controller.EtcdEndpoints sp)
                       (controller.ClientTLSSecret sp) (controller.namespace b)))).
Proof.
  intros run handled. unfold run, handled, controller.handleBackup.
  repeat split.
  - intros H1 H2. by rewrite !bool_decide_eq_false_2.
  - intros r. repeat case_bool_decide; try done; auto.
  - intros H1. rewrite bool_decide_eq_true_2 by done.
    by destruct (handleS3 _ _ _ _) as [bs [e|]].
  - intros H1 H2. rewrite bool_decide_eq_false_2, bool_decide_eq_true_2 by done.
    by destruct (handleABS _ _ _ _) as [bs [e|]].
Qed.

(** The dispatch on the storage type "PV", with the constants "S3" and
    "ABS" and handlers that succeed. *)
Example handleBackup_PV :
  controller.handleBackup "S3" "ABS"
    (fun _ _ _ _ => (Some (controller.mkBackupStatus "3.3.1" 1), None))
    (fun _ _ _ _ => (Some (controller.mkBackupStatus "3.3.1" 1), None))
    (controller.mkBackup "default")
    (controller.mkBackupSpec "PV" None None [] "") =
  controller.Exits 1 "unknown StorageType: PV".
Proof. reflexivity. Qed.

(** ** The statements at sample inputs *)

Lemma sample_lib_laws : LibLaws sample.lib.
Proof. by constructor. Qed.

Lemma sample_secureHasStatic cl :
  spec.TLS (spec.Spec cl) = None -> secureHasStatic sample.lib cl.
Proof. unfold secureHasStatic. cbn. by intros ->. Qed.

(** [setup] on a record in the phase Failed. *)
Lemma setup_dispatches_on_phase_witness :
  exists w',
    setup sample.lib sample.env sample.pkg
      (sample.world
         sample.failed
         (sample.statusIn spec.ClusterPhaseFailed)) =
    (Panic failedPanic, w') /\
    spec.Phase (status w') = spec.ClusterPhaseRunning.
Proof.
  destruct (setup_dispatches_on_phase sample.lib sample.env sample.pkg
              (sample.world
                 sample.failed
                 (sample.statusIn spec.ClusterPhaseFailed))
              1%positive
              sample.failed
              eq_refl eq_refl eq_refl)
    as (_ & _ & _ & Hfailed).
  destruct (Hfailed eq_refl eq_refl) as (w' & Hrun & _ & Hphase & _).
  exists w'. split; [exact Hrun | exact Hphase].
Defined.

(** A Modify event that only adds a host path to the pod policy. *)
Lemma modify_with_equal_spec_is_ignored_witness :
  exists w1,
    round sample.lib sample.env sample.pkg (InEvent sample.modifyEvent) None
      (sample.world2
         sample.plain
         sample.withHostPath
         sample.status0) =
    (Ret (Some None), w1) /\
    cluster w1 = Some 1%positive /\ status w1 = sample.status0.
Proof.
  destruct (modify_with_equal_spec_is_ignored sample.lib sample.env sample.pkg
              None
              (sample.world2
                 sample.plain
                 sample.withHostPath
                 sample.status0)
              sample.modifyEvent 2%positive
              sample.withHostPath
              sample.plain
              sample_lib_laws (loopHead_first _ _ _ _)
              eq_refl eq_refl eq_refl eq_refl
              (sample_secureHasStatic sample.plain eq_refl)
              eq_refl eq_refl eq_refl eq_refl)
    as (w1 & w2 & Hrun & Hc & _ & _ & Hst & _).
  exists w1. split; [exact Hrun|]. split; [exact Hc | exact Hst].
Defined.

(** A Modify event that adds a backup policy. *)
Lemma updateBackupPolicy_transitions_witness :
  exists w1,
    tlsOnly
      (sample.world2
         sample.plain
         sample.withBackup
         sample.status0) w1 /\
    forall w3,
      updateBackupPolicy sample.env None (Some sample.policy)
        (set_cluster (Some 2%positive) w1) ≠
      (Panic "unexpected backup spec comparison", w3).
Proof.
  destruct (updateBackupPolicy_transitions sample.lib sample.env sample.pkg
              sample.modifyEvent None
              (sample.world2
                 sample.plain
                 sample.withBackup
                 sample.status0)
              2%positive
              sample.withBackup
              sample.plain
              eq_refl eq_refl eq_refl eq_refl
              (sample_secureHasStatic sample.plain eq_refl) eq_refl)
    as (w1 & Hf & _ & Hne).
  exists w1. split; [exact Hf|].
  destruct (Hne ltac:(discriminate)) as (_ & Hpanic & _). exact Hpanic.
Defined.

(** A tick on a paused cluster. *)
Lemma paused_tick_skips_reconciliation_witness :
  exists w',
    round sample.lib sample.env sample.pkg InTick None
      (sample.world
         sample.paused
         sample.status0) =
    (Ret (Some None), w') /\
    status w' = sample.addCondition "Paused" sample.status0 /\
    members w' = None.
Proof.
  destruct (paused_tick_skips_reconciliation sample.lib sample.env None
              (sample.world
                 sample.paused
                 sample.status0)
              sample.paused
              eq_refl (sample_secureHasStatic sample.paused eq_refl) eq_refl)
    as (w' & Hrun & Hst & _ & _ & Hms & _).
  exists w'. split; [exact (Hrun sample.pkg)|]. split; [exact Hst | exact Hms].
Defined.

(** Five listed pods: one running and one pending of the cluster, one
    failed, one of another owner, one without owner. *)
Lemma pollPods_classifies_witness :
  exists w',
    pollPods (sample.envWith inr None sample.pods)
      (sample.world
         sample.plain
         sample.status0) =
    (Ret ([sample.pod "example-0000" "uid-1" v1.PodRunning],
          [sample.pod "example-0001" "uid-1" v1.PodPending], None), w').
Proof.
  destruct (pollPods_classifies (sample.envWith inr None sample.pods)
              (sample.world
                 sample.plain
                 sample.status0)
              sample.plain
              sample.pods eq_refl eq_refl)
    as (running & pending & Hrun & Hr & Hp & _).
  eexists. rewrite Hrun, Hr, Hp. reflexivity.
Defined.

(** The platform answers that the pod is not found. *)
Lemma removePod_not_found_is_success_witness :
  exists w',
    removePod sample.lib
      (sample.envWith inr (Some (ErrCollab "pods" 404)) [])
      "example-0000"
      (sample.world
         sample.plain
         sample.status0) =
    (Ret None, w').
Proof.
  destruct (removePod_not_found_is_success sample.lib
              (sample.envWith inr (Some (ErrCollab "pods" 404)) [])
              "example-0000"
              (sample.world
                 sample.plain
                 sample.status0)
              sample.plain
              eq_refl)
    as (r & Hrun & _ & _ & Hnf & _).
  eexists. rewrite Hrun, (Hnf _ eq_refl eq_refl). reflexivity.
Defined.

(** The status has changed and the record client stores it. *)
Lemma updateCRStatus_writes_only_on_change_witness :
  exists w',
    updateCRStatus sample.env
      (sample.world
         sample.plain
         sample.running) =
    (Ret None, w') /\
    theCluster w' =
    Some (sample.record (sample.clusterSpec false None) sample.running).
Proof.
  destruct (updateCRStatus_writes_only_on_change sample.env
              (sample.world
                 sample.plain
                 sample.running)
              1%positive
              sample.plain
              eq_refl eq_refl)
    as (_ & Hne).
  destruct (Hne ltac:(discriminate)) as (Hok & _).
  destruct (Hok _ eq_refl) as (Hrun & Hc & _).
  eexists. split; [exact Hrun | exact Hc].
Defined.

(** The status has changed and the record client fails. *)
Lemma updateCRStatus_failed_write_not_retried_witness :
  exists w',
    updateCRStatus sample.envUpdateFails
      (sample.world
         sample.plain
         sample.running) =
    (Ret (Some (ErrorfErr "failed to update CR status: %v" []
                  (ErrCollab "conflict" 409))), w') /\
    status w' = sample.running /\
    updateCRStatus sample.envUpdateFails w' = (Ret None, w').
Proof.
  destruct (updateCRStatus_failed_write_not_retried sample.envUpdateFails
              (sample.world
                 sample.plain
                 sample.running)
              1%positive
              sample.plain
              eq_refl eq_refl ltac:(discriminate))
    as (r & w' & cl' & Hrun & Hst & _ & _ & Hagain & Hfail).
  destruct (Hfail _ ltac:(discriminate) eq_refl) as (-> & _).
  exists w'. split; [exact Hrun|]. split; [exact Hst | exact Hagain].
Defined.

(** ** Where the specification says more than the code does *)

(** C2, as stated, fails: after a hundred events have been enqueued, with
    the stop channel open, no case of the [select] of [send] is ready, and
    [Update] and [Delete] block. *)
Lemma send_blocks_on_full_queue :
  sample.sendAll (replicate 100 sample.modifyEvent) New_chans =
    Some (sample.queue 100) /\
  len (sample.queue 100) = 100 /\
  blocks (sample.queue 100) sample.modifyEvent /\
  Update (sample.queue 100) (Some 2%positive) = [] /\
  Delete (sample.queue 100) = [].
Proof. vm_compute. repeat split; reflexivity. Qed.

(** C9, as stated, fails: when the record client answers a write with a
    record whose status is not the one it was sent, the record of
    [c.cluster] after the call does not carry the in-memory status, and a
    second call with the same status writes again. *)
Lemma updateCRStatus_rewrites_after_success :
  let w := sample.world
             sample.plain
             sample.running in
  let w' := (updateCRStatus sample.envUpdateDropsStatus w).2 in
  let w'' := (updateCRStatus sample.envUpdateDropsStatus w').2 in
  (updateCRStatus sample.envUpdateDropsStatus w).1 = Ret None /\
  status w' = status w /\
  spec.Status <$> theCluster w' = Some sample.status0 /\
  spec.Status <$> theCluster w' ≠ Some (status w') /\
  (updateCRStatus sample.envUpdateDropsStatus w').1 = Ret None /\
  trace w'' =
    [CallCRUpdate (sample.record (sample.clusterSpec false None) sample.running);
     CallCRUpdate (sample.record (sample.clusterSpec false None) sample.running)].
Proof. vm_compute. repeat split; try reflexivity. discriminate. Qed.

(** * Further properties of the controller *)

(** ** Comparison of specs *)

(** X1.  [isSpecEqual] is an equivalence on specs, and it does not see the
    TLS block, the pod policy or the self-hosted block: a spec that differs
    from another in those alone compares equal to it. *)
Theorem isSpecEqual_equivalence_blind_to_tls_pod s1 s2 s3 :
  isSpecEqual s1 s1 = true /\
  isSpecEqual s1 s2 = isSpecEqual s2 s1 /\
  (isSpecEqual s1 s2 = true -> isSpecEqual s2 s3 = true ->
   isSpecEqual s1 s3 = true) /\
  (forall tls pod selfHosted,
     isSpecEqual s1
       (spec.mkClusterSpec (spec.Size s1) (spec.Version s1) (spec.Paused s1)
          tls pod (spec.Backup s1) selfHosted) = true).
Proof.
  split; [by apply isSpecEqual_true|]. split; [|split].
  - destruct (isSpecEqual s1 s2) eqn:H12, (isSpecEqual s2 s1) eqn:H21;
      try done.
    + apply isSpecEqual_true in H12 as (? & ? & ? & ?).
      rewrite <- H21. symmetry. by apply isSpecEqual_true.
    + apply isSpecEqual_true in H21 as (? & ? & ? & ?).
      rewrite <- H12. by apply isSpecEqual_true.
  - intros (? & ? & ? & ?)%isSpecEqual_true (? & ? & ? & ?)%isSpecEqual_true.
    apply isSpecEqual_true. repeat split; congruence.
  - intros tls pod selfHosted. by apply isSpecEqual_true.
Qed.

(** ** Setup *)

(** X2.  [setup] validates the spec before it looks at the phase: with an
    invalid spec it returns the wrapped validation error and leaves the
    state untouched, calling nobody, in every phase (in the phase Failed
    too, where it neither writes the status nor panics).  With a valid spec
    and a phase that is none of the four, it returns an error and leaves
    the state untouched as well. *)
Theorem setup_rejects_before_dispatch L E P w cl :
  theCluster w = Some cl ->
  (forall err, Validate L (spec.Spec cl) = Some err ->
     setup L E P w =
     (Ret (Some (ErrorfErr "invalid cluster spec: %v" [] err)), w)) /\
  (forall p, Validate L (spec.Spec cl) = None ->
     spec.Phase (status w) = spec.ClusterPhaseOther p ->
     setup L E P w =
     (Ret (Some (Errorf "unexpected cluster phase: %s" [p])), w)).
Proof.
  intros Hc. split.
  - intros err Hv. unfold setup.
    by rewrite bind_run, (derefCluster_run _ _ Hc), Hv.
  - intros p Hv Hp. unfold setup.
    rewrite bind_run, (derefCluster_run _ _ Hc), Hv. munfold. by rewrite Hp.
Qed.

(** X3.  A controller that starts without a backup manager and whose
    [setup] returns nil in the phase Running has a backup manager exactly
    when the spec has a backup policy. *)
Theorem setup_running_manager_iff_policy L E P w cl w' :
  theCluster w = Some cl -> Validate L (spec.Spec cl) = None ->
  spec.Phase (status w) = spec.ClusterPhaseRunning ->
  bm w = None ->
  setup L E P w = (Ret None, w') ->
  managerIffPolicy w' (spec.Backup (spec.Spec cl)).
Proof.
  intros Hc Hv Hp Hb Hrun. unfold managerIffPolicy.
  destruct (refreshTLSConfig L E w) as [[[e|]|msg] w1] eqn:Hr.
  - revert Hrun. unfold setup.
    rewrite bind_run, (derefCluster_run _ _ Hc), Hv. munfold.
    rewrite Hp. cbn. rewrite Hr. done.
  - rewrite (setup_past_switch L E P w cl w1 false Hc Hv Hp Hr) in Hrun.
    apply refreshTLSConfig_frame in Hr as (_ & _ & _ & _ & Hb1 & _).
    destruct (spec.Backup (spec.Spec cl)) as [p|].
    + cbn zeta in Hrun.
      destruct (newBackupManager E (trace w1) cl) as [[h|] [e|]];
        simplify_eq/=. split; eauto.
    + simplify_eq. rewrite Hb1, Hb. split; intros [? ?]; done.
  - revert Hrun. unfold setup.
    rewrite bind_run, (derefCluster_run _ _ Hc), Hv. munfold.
    rewrite Hp. cbn. rewrite Hr. done.
Qed.

(** ** Spec updates *)

(** X4.  [updateBackupPolicy] keeps the backup manager in step with the
    policy: called with two policies that differ, in a state where the
    manager exists exactly when the old policy does, a nil result leaves
    a manager exactly when the new policy exists. *)
Theorem updateBackupPolicy_manager_iff_policy E ob nb w w' :
  ob ≠ nb -> managerIffPolicy w ob ->
  updateBackupPolicy E ob nb w = (Ret None, w') ->
  managerIffPolicy w' nb.
Proof.
  unfold managerIffPolicy. intros Hne Hinv.
  destruct ob as [p|], nb as [q|]; try done;
    unfold updateBackupPolicy, derefCluster, load; munfold; intros Hrun;
    repeat (case_match; simplify_eq/=); split; eauto;
    try (intros [? ?]; done).
  all: intros _; apply Hinv; eauto.
Qed.

Lemma updateBackupPolicy_frame E ob nb w r w' :
  updateBackupPolicy E ob nb w = (r, w') ->
  cluster w' = cluster w /\ store w' = store w /\ status w' = status w.
Proof.
  unfold updateBackupPolicy, derefCluster, load. munfold.
  destruct ob, nb; intros Hrun; repeat (case_match; simplify_eq/=);
    repeat split; try done.
  all: match goal with H : _ = (_, _) |- _ => revert H end; cbn;
    intros; simplify_eq/=; done.
Qed.

(** A Modify event that reaches the statements after the [select]. *)
Lemma onEvent_modify_afterSelect L E ev rerr w l new cur r w3 :
  typ ev = eventModifyCluster -> ev_cluster ev = Some l ->
  store w !! l = Some new -> theCluster w = Some cur ->
  secureHasStatic L cur ->
  onEvent L E ev rerr w = (Ret (AfterSelect r), w3) ->
  r = rerr /\ store w3 = store w /\ status w3 = status w /\
  (cluster w3 = Some l \/
   cluster w3 = cluster w /\
   isSpecEqual (spec.Spec new) (spec.Spec cur) = true).
Proof.
  intros Ht Hev Hnew Hcur Hs Hrun.
  destruct (onEvent_modify L E ev rerr w l new cur) as (w1 & Hf & Heq);
    try done.
  rewrite Hrun in Heq.
  destruct Hf as (Hc1 & Hst1 & _ & _ & _ & Hsto1 & _).
  destruct (isSpecEqual (spec.Spec new) (spec.Spec cur)).
  { simplify_eq. repeat split; try done. by right. }
  cbn zeta in Heq. destruct (isBackupPolicyEqual _ _).
  { simplify_eq. repeat split; try done. by left. }
  destruct (updateBackupPolicy E _ _ _) as [[[e|]|msg] w4] eqn:Hup;
    simplify_eq.
  apply updateBackupPolicy_frame in Hup as (Hc & Hsto & Hst). cbn in *.
  repeat split; try congruence. by left.
Qed.

(** X5.  Applying a Modify event twice comes to the same as applying it
    once: in every state in which the loop starts a round, when the round
    of a Modify event goes on to the next round, the round of the same
    event that follows leaves [c.cluster], the store, the backup manager,
    the status and the members as the first round left them (the event's
    record is by then the current one, or compares equal to it). *)
Theorem modify_twice_is_modify_once L E P rerr w ev l new cur rerr1 w1 :
  LibLaws L -> loopHead L E P rerr w ->
  typ ev = eventModifyCluster -> ev_cluster ev = Some l ->
  store w !! l = Some new -> theCluster w = Some cur ->
  secureHasStatic L cur -> secureHasStatic L new ->
  round L E P (InEvent ev) rerr w = (Ret (Some rerr1), w1) ->
  exists w2,
    round L E P (InEvent ev) rerr1 w1 = (Ret (Some rerr1), w2) /\
    cluster w2 = cluster w1 /\ store w2 = store w1 /\ bm w2 = bm w1 /\
    status w2 = status w1 /\ members w2 = members w1 /\
    memberCounter w2 = memberCounter w1.
Proof.
  intros HL Hhead Ht Hev Hnew Hcur Hsc Hsn Hrun.
  assert (loopHead L E P rerr1 w1) as Hhead1 by (by eapply loopHead_next).
  pose proof (loopHead_reasonRecorded L E P _ _ HL Hhead1) as Hrec1.
  unfold round in Hrun.
  apply bind_ret_inv in Hrun as (fl & w3 & Hfl & Hrun).
  destruct fl as [r|r|].
  2:{ by apply onEvent_no_continue in Hfl. }
  2:{ by apply mret_inv in Hrun as [? _]. }
  apply bind_ret_inv in Hrun as (u & w4 & Hafter & Hrun).
  apply mret_inv in Hrun as [[= <-] <-].
  rewrite afterSelect_run in Hafter by apply HL.
  destruct (onEvent_modify_afterSelect L E ev rerr w l new cur r w3)
    as (-> & Hsto3 & Hst3 & Hcl3); try done.
  assert (cluster w4 = cluster w3 /\ store w4 = store w3) as [Hc4 Hsto4].
  { simplify_eq. destruct rerr as [e|]; [|done].
    by destruct (isFatalError L (Some e)). }
  assert (exists cur1, theCluster w4 = Some cur1 /\ secureHasStatic L cur1 /\
            isSpecEqual (spec.Spec new) (spec.Spec cur1) = true)
    as (cur1 & Hcur1 & Hs1 & Heq1).
  { destruct Hcl3 as [Hl | [Hsame Heq]].
    - exists new. split; [|split; [done|by apply isSpecEqual_true]].
      unfold theCluster. rewrite Hc4, Hl. cbn. by rewrite Hsto4, Hsto3.
    - exists cur. split; [|done].
      unfold theCluster in *. by rewrite Hc4, Hsame, Hsto4, Hsto3. }
  destruct (round_modify_equal L E P ev rerr w4 l new cur1)
    as (w2 & Hf & Hrun2); try done.
  { by rewrite Hsto4, Hsto3. }
  destruct Hf as (? & ? & ? & ? & ? & ? & _).
  exists w2. repeat split; done.
Qed.

(** ** Seed member and pods *)

Lemma isPodPVEnabled_run w cl :
  theCluster w = Some cl ->
  isPodPVEnabled w =
  (Ret match chosenVolume (spec.Spec cl) with
       | VolumePVC _ => true
       | _ => false
       end, w).
Proof.
  intros Hc. unfold isPodPVEnabled, chosenVolume.
  rewrite bind_run, (derefCluster_run _ _ Hc).
  destruct (spec.Pod (spec.Spec cl)) as [[[claim|] [path|]]|]; done.
Qed.

Lemma isPodHostPathEnabled_run w cl :
  theCluster w = Some cl ->
  isPodHostPathEnabled w =
  (Ret (bool_decide ((spec.Pod (spec.Spec cl) ≫= spec.HostPath) ≠ None)), w).
Proof.
  intros Hc. unfold isPodHostPathEnabled.
  rewrite bind_run, (derefCluster_run _ _ Hc).
  destruct (spec.Pod (spec.Spec cl)) as [[claim [path|]]|]; done.
Qed.

(** [createPod], by the storage that the pod policy selects. *)
Lemma createPod_run L E ms m state needRecovery w cl :
  theCluster w = Some cl ->
  let w0 := if bool_decide (state = "new") then called CallUUIDNew w else w in
  let token := if bool_decide (state = "new") then uuid_New E (trace w) else "" in
  let ns := spec.Namespace cl in
  let pod := mkPodRequest m (PeerURLPairs L ms) (spec.Name cl) state token
               (spec.Spec cl) (AsOwner L cl) needRecovery
               (chosenVolume (spec.Spec cl)) in
  createPod L E ms m state needRecovery w =
  match chosenVolume (spec.Spec cl) with
  | VolumePVC claim =>
      let pvc := mkPVCRequest m claim (spec.Name cl) ns (AsOwner L cl) in
      match PVC_Create E (trace w0) ns pvc with
      | Some e =>
          (Ret (Some (ErrorfErr "failed to create PVC for member (%s): %v"
                        [etcdutil.Name m] e)),
           called (CallPVCCreate ns pvc) w0)
      | None =>
          (Ret (Pods_Create E (trace w0 ++ [CallPVCCreate ns pvc]) ns pod),
           called (CallPodsCreate ns pod) (called (CallPVCCreate ns pvc) w0))
      end
  | _ => (Ret (Pods_Create E (trace w0) ns pod), called (CallPodsCreate ns pod) w0)
  end.
Proof.
  intros Hc w0 token ns pod. unfold createPod.
  assert (theCluster w0 = Some cl) as Hc0
    by (unfold w0; by case_bool_decide).
  rewrite bind_run.
  assert ((if bool_decide (state = "new")
           then call CallUUIDNew (uuid_New E) else mret "") w =
          (Ret token, w0)) as ->
    by (unfold token, w0; by case_bool_decide).
  rewrite bind_run, (derefCluster_run _ _ Hc0).
  rewrite bind_run, (isPodPVEnabled_run _ _ Hc0).
  unfold pod, chosenVolume.
  destruct (spec.Pod (spec.Spec cl)) as [[[claim|] [path|]]|] eqn:Hpod;
    cbn [mbind option_bind spec.PersistentVolumeClaimSpec spec.HostPath].
  - munfold. cbn. by destruct (PVC_Create E _ _ _).
  - munfold. cbn. by destruct (PVC_Create E _ _ _).
  - rewrite bind_run, (isPodHostPathEnabled_run _ _ Hc0), Hpod. done.
  - rewrite bind_run, (isPodHostPathEnabled_run _ _ Hc0), Hpod. done.
  - rewrite bind_run, (isPodHostPathEnabled_run _ _ Hc0), Hpod. done.
Qed.

(** X6.  [createPod] asks for a fresh token exactly when the state is
    "new" (otherwise the token is empty), and attaches one storage to the
    pod, by the pod policy: a volume claim if the policy has one (even if it
    has a host path too), else a host path, else an empty directory.  With
    a volume claim, the claim is created before the pod, and when that
    fails the pod is not submitted and the error is wrapped; otherwise the
    result is the answer to the submission of the pod.  Only the trace
    changes.  In particular a policy with both a volume claim and a host
    path gets the volume claim. *)
Theorem createPod_attaches_one_storage L E ms m state needRecovery w cl :
  theCluster w = Some cl ->
  let w0 := if bool_decide (state = "new") then called CallUUIDNew w else w in
  let token := if bool_decide (state = "new") then uuid_New E (trace w) else "" in
  let ns := spec.Namespace cl in
  let pod := mkPodRequest m (PeerURLPairs L ms) (spec.Name cl) state token
               (spec.Spec cl) (AsOwner L cl) needRecovery
               (chosenVolume (spec.Spec cl)) in
  (createPod L E ms m state needRecovery w =
  match chosenVolume (spec.Spec cl) with
  | VolumePVC claim =>
      let pvc := mkPVCRequest m claim (spec.Name cl) ns (AsOwner L cl) in
      match PVC_Create E (trace w0) ns pvc with
      | Some e =>
          (Ret (Some (ErrorfErr "failed to create PVC for member (%s): %v"
                        [etcdutil.Name m] e)),
           called (CallPVCCreate ns pvc) w0)
      | None =>
          (Ret (Pods_Create E (trace w0 ++ [CallPVCCreate ns pvc]) ns pod),
           called (CallPodsCreate ns pod) (called (CallPVCCreate ns pvc) w0))
      end
  | _ => (Ret (Pods_Create E (trace w0) ns pod), called (CallPodsCreate ns pod) w0)
  end) /\
  (forall podPolicy claim path,
     spec.Pod (spec.Spec cl) = Some podPolicy ->
     spec.PersistentVolumeClaimSpec podPolicy = Some claim ->
     spec.HostPath podPolicy = Some path ->
     chosenVolume (spec.Spec cl) = VolumePVC claim).
Proof.
  intros Hc w0 token ns pod. split.
  - by apply createPod_run.
  - intros podPolicy claim path Hp Hclaim Hpath. unfold chosenVolume.
    by rewrite Hp, Hclaim.
Qed.



Lemma derefCluster_inv w o w1 :
  derefCluster w = (o, w1) ->
  w1 = w /\ forall cl, o = Ret cl -> theCluster w = Some cl.
Proof.
  unfold derefCluster, load, theCluster. munfold.
  destruct (cluster w) as [l|]; cbn; [|by intros [= <- <-]].
  destruct (store w !! l); intros [= <- <-]; split; try done.
  by intros ? [= <-].
Qed.



(** ** Creation of the cluster *)

(** X9.  When the write of the phase Creating fails, [create] stops there:
    it returns the doubly wrapped error and has called nobody but the
    record client (no garbage collection, no backup setup, no pod, no
    service).  The in-memory status and the record that [c.cluster] points
    to carry the new phase all the same. *)
Theorem create_stops_when_status_write_fails L E P w l cl err :
  cluster w = Some l -> store w !! l = Some cl ->
  let st := SetPhase L spec.ClusterPhaseCreating (status w) in
  let sent := spec.set_Status st cl in
  spec.Status cl ≠ st ->
  EtcdCRCli_Update E (trace w) sent = inl err ->
  create L E P w =
    (Ret (Some (ErrorfErr
                  "cluster create: failed to update cluster phase (%v): %v"
                  ["Creating"]
                  (ErrorfErr "failed to update CR status: %v" [] err))),
     written l sent (set_status st w)) /\
  trace (written l sent (set_status st w)) = trace w ++ [CallCRUpdate sent] /\
  status (written l sent (set_status st w)) = st /\
  theCluster (written l sent (set_status st w)) = Some sent.
Proof.
  intros Hl Hs st sent Hne Herr. split; [|split; [done|split; [done|]]].
  - unfold create. rewrite bind_run.
    unfold modifyStatus at 1, modify at 1. fold st.
    rewrite bind_run.
    rewrite (updateCRStatus_differ E (set_status st w) l cl Hl Hs Hne).
    cbn [status set_status trace]. fold sent. by rewrite Herr.
  - by apply written_theCluster.
Qed.

Lemma updateCRStatus_outcome E w cl :
  theCluster w = Some cl -> returnsSpec E ->
  exists r w1 cl1,
    updateCRStatus E w = (Ret r, w1) /\
    theCluster w1 = Some cl1 /\ spec.Spec cl1 = spec.Spec cl /\
    members w1 = members w /\ memberCounter w1 = memberCounter w /\
    bm w1 = bm w /\
    (trace w1 = trace w \/
     exists sent, trace w1 = trace w ++ [CallCRUpdate sent]).
Proof.
  intros Hc Hecho.
  destruct (theCluster_inv _ _ Hc) as (l & Hl & Hs).
  destruct (decide (spec.Status cl = status w)) as [Heq|Hne].
  - exists None, w, cl. rewrite (updateCRStatus_equal E w cl Hc Heq).
    repeat split; eauto.
  - rewrite (updateCRStatus_differ E w l cl Hl Hs Hne). cbn zeta.
    destruct (EtcdCRCli_Update E (trace w) _) as [err|returned] eqn:Hup.
    + eexists _, _, _. split; [done|].
      split; [by apply written_theCluster|]. repeat split; eauto.
    + eexists _, _, _. split; [done|].
      split; [by apply adopted_theCluster|].
      split; [by rewrite (Hecho _ _ _ Hup)|]. repeat split; eauto.
Qed.

Lemma noPod_refl w : noPod w w.
Proof. repeat split. exists []. by rewrite app_nil_r. Qed.

Lemma noPod_trans w1 w2 w3 : noPod w1 w2 -> noPod w2 w3 -> noPod w1 w3.
Proof.
  intros (Hm1 & Hc1 & calls1 & Ht1 & Ha1) (Hm2 & Hc2 & calls2 & Ht2 & Ha2).
  split; [congruence|]. split; [congruence|].
  exists (calls1 ++ calls2). split.
  - by rewrite Ht2, Ht1, (assoc_L (++)).
  - by apply Forall_app.
Qed.

Lemma noPod_called c w :
  ¬ podCall c -> noPod w (set_trace (trace w ++ [c]) w).
Proof. intros Hc. repeat split. exists [c]. split; [done|]. by constructor. Qed.

Lemma setupServices_noPod L E w r w' :
  setupServices L E w = (r, w') -> noPod w w'.
Proof.
  unfold setupServices. rewrite bind_run.
  destruct (derefCluster w) as [[cl|msg] w1] eqn:Hd;
    apply derefCluster_inv in Hd as [-> Hc].
  2:{ intros [= <- <-]. apply noPod_refl. }
  specialize (Hc _ eq_refl).
  rewrite bind_run. unfold call at 1.
  destruct (CreateClientService E _ _ _ _) as [e|].
  - intros [= <- <-]. apply noPod_called. by intros [].
  - rewrite bind_run, (derefCluster_run _ cl) by done.
    unfold call. intros [= <- <-].
    eapply noPod_trans; apply noPod_called; by intros [].
Qed.

(** X10.  With a backup policy in the spec, [create] starts no seed
    member, whatever its result: it asks for no token, creates no volume
    claim and submits no pod, and the members and the member counter are as
    before (the record client is taken to return the spec it was sent). *)
Theorem create_with_backup_policy_starts_no_member L E P w cl p r w' :
  theCluster w = Some cl -> spec.Backup (spec.Spec cl) = Some p ->
  returnsSpec E ->
  create L E P w = (r, w') ->
  members w' = members w /\ memberCounter w' = memberCounter w /\
  exists calls,
    trace w' = trace w ++ calls /\ Forall (fun c => ¬ podCall c) calls.
Proof.
  intros Hc Hb Hecho. unfold create. rewrite bind_run.
  unfold modifyStatus at 1, modify at 1.
  set (w0 := set_status _ w).
  destruct (updateCRStatus_outcome E w0 cl Hc Hecho)
    as (e & w1 & cl1 & Hup & Hc1 & Hsp & Hms & Hmc & Hbm & Htr).
  rewrite bind_run, Hup.
  assert (noPod w w1) as H01.
  { split; [done|]. split; [done|]. destruct Htr as [-> | (sent & ->)].
    - exists []. by rewrite app_nil_r.
    - eexists. split; [done|]. repeat constructor. by intros []. }
  clear Htr Hup Hms Hmc.
  destruct e as [e|]; [by intros [= <- <-]|].
  rewrite bind_run, (derefCluster_run _ _ Hc1).
  rewrite bind_run. unfold call at 1.
  set (w2 := set_trace _ w1).
  assert (noPod w w2) as H02
    by (eapply noPod_trans; [done|]; apply noPod_called; by intros []).
  assert (theCluster w2 = Some cl1) as Hc2 by done.
  rewrite bind_run. unfold get at 1.
  rewrite bind_run.
  assert (exists err w3,
            match bm w2 with
            | Some h => call (CallBMSetup h) (fun t => bm_setup E t h)
            | None => mret None
            end w2 = (Ret err, w3) /\ noPod w w3 /\ theCluster w3 = Some cl1)
    as (err & w3 & -> & H03 & Hc3).
  { destruct (bm w2) as [h|].
    - eexists _, _. split; [done|]. split; [|done].
      eapply noPod_trans; [done|]. apply noPod_called. by intros [].
    - by eexists _, _. }
  destruct err as [e|]; [by intros [= <- <-]|].
  rewrite bind_run, (derefCluster_run _ _ Hc3), Hsp, Hb.
  rewrite bind_run. unfold mret at 1, M_ret at 1.
  rewrite bind_run.
  destruct (setupServices L E w3) as [[[e|]|msg] w4] eqn:Hsvc;
    apply setupServices_noPod in Hsvc;
    intros [= <- <-]; by eapply noPod_trans.
Qed.

(** ** Rounds of the loop *)

Lemma onTick_no_return L E P rerr w w1 :
  onTick L E P rerr w = (Ret Return, w1) -> False.
Proof. unfold onTick. intros H. minv; discriminate. Qed.

(** X11.  A tick never makes [run] return: whatever the poll, the
    disaster recovery, the update of the members or the reconciliation
    answer, fatal error or not, the round of a tick goes on to the next
    round (or panics). *)
Theorem tick_never_ends_run L E P rerr w :
  (exists rerr', (round L E P InTick rerr w).1 = Ret (Some rerr')) \/
  (exists msg, (round L E P InTick rerr w).1 = Panic msg).
Proof.
  destruct (round L E P InTick rerr w) as [[[r|]|msg] w'] eqn:Hrun; eauto.
  exfalso. unfold round in Hrun.
  apply bind_ret_inv in Hrun as (fl & w1 & Hfl & Hrun).
  destruct fl as [r|r|].
  - apply bind_ret_inv in Hrun as (u & w2 & _ & Hrun).
    by apply mret_inv in Hrun as [? _].
  - by apply mret_inv in Hrun as [? _].
  - by apply onTick_no_return in Hfl.
Qed.

(** A tick of a cluster that is not paused, up to the answer of the poll. *)
Lemma onTick_polled L E P rerr w cl r w1 :
  theCluster w = Some cl ->
  spec.Paused (spec.Spec cl) = false ->
  refreshTLSConfig L E w = (Ret r, w1) ->
    let w2 := called (CallPodsList (spec.Namespace cl) (spec.Name cl))
                (set_status (Control L (status w)) w1) in
    onTick L E P rerr w =
    match Pods_List E (trace w1) (spec.Namespace cl) (spec.Name cl) with
    | inl _ => (Ret (Continue rerr), w2)
    | inr items =>
        let running :=
          filter (fun p => ours (spec.UID cl) p /\ inPhase v1.PodRunning p)
            items in
        let pending :=
          filter (fun p => ours (spec.UID cl) p /\ inPhase v1.PodPending p)
            items in
        if bool_decide (0 < length pending)%nat then (Ret (Continue rerr), w2)
        else if bool_decide (length running = 0)%nat then
          match disasterRecovery P None w2 with
          | (Ret rerr', w3) => (Ret (AfterSelect rerr'), w3)
          | (Panic msg, w3) => (Panic msg, w3)
          end
        else
          (ms ← get members;
           rerr ← (if negb (isNil rerr) || isNil ms
                   then
                     secure ← isSecureClient L;
                     updateMembers P (podsToMemberSet L running secure)
                   else mret rerr);
           match rerr with
           | Some e => mret (AfterSelect (Some e))
           | None =>
               rerr ← reconcile P running;
               match rerr with
               | Some e => mret (AfterSelect (Some e))
               | None =>
                   updateLocalBackupStatus L E;;
                   ms ← get members;
                   updateMemberStatus L E ms;;
                   updateCRStatus E;;
                   mret (AfterSelect None)
               end
           end) w2
    end.
Proof.
  intros Hc Hp Hr w2. unfold onTick.
  pose proof (refreshTLSConfig_frame _ _ _ _ _ Hr) as Hf.
  pose proof (tlsOnly_theCluster _ _ Hf) as Hc1. rewrite Hc in Hc1.
  destruct Hf as (_ & Hst & _).
  rewrite bind_run, Hr, bind_run, (derefCluster_run _ _ Hc1), Hp.
  rewrite bind_run. unfold modifyStatus at 1, modify at 1. rewrite Hst.
  rewrite bind_run, (pollPods_run E _ cl) by done.
  cbn [trace set_status]. fold w2.
  destruct (Pods_List E (trace w1) _ _) as [err|items]; [done|].
  cbn zeta. case_bool_decide; [done|].
  case_bool_decide; [|done].
  rewrite bind_run.
  by destruct (disasterRecovery P None w2) as [[?|?] ?].
Qed.

(** X12.  While a pod of the cluster is pending, and when the listing of
    the pods fails, the tick of a cluster that is not paused does nothing
    more than resume control in the status: it lists the pods and goes to
    the next round with [rerr] as it was.  The members, the member counter,
    the backup manager and the records are unchanged, and neither the
    disaster recovery nor the update of the members nor the reconciliation
    has a part in the result. *)
Theorem tick_waits_for_pending_pods L E rerr w cl :
  theCluster w = Some cl -> secureHasStatic L cl ->
  spec.Paused (spec.Spec cl) = false ->
  exists w1, tlsOnly w w1 /\
    let answer := Pods_List E (trace w1) (spec.Namespace cl) (spec.Name cl) in
    ((exists err, answer = inl err) \/
     (exists items pod, answer = inr items /\ pod ∈ items /\
        ours (spec.UID cl) pod /\ v1.Phase (v1.Status pod) = v1.PodPending)) ->
    forall P,
      round L E P InTick rerr w =
      (Ret (Some rerr),
       called (CallPodsList (spec.Namespace cl) (spec.Name cl))
         (set_status (Control L (status w)) w1)).
Proof.
  intros Hc Hs Hp.
  destruct (refreshTLSConfig_run L E w cl Hc Hs) as (r & w1 & Hr & Hf).
  exists w1. split; [done|]. intros answer Hans P.
  pose proof (onTick_polled L E P rerr w cl r w1 Hc Hp Hr) as Hrun.
  cbn zeta in Hrun. fold answer in Hrun.
  unfold round. rewrite bind_run, Hrun.
  destruct Hans as [(err & ->) | (items & pod & -> & Hin & Hours & Hph)];
    [done|].
  rewrite bool_decide_eq_true_2; [done|].
  assert (pod ∈ filter (fun p => ours (spec.UID cl) p /\
                                 inPhase v1.PodPending p) items) as Hmem
    by (by apply list_elem_of_filter).
  destruct (filter _ items); [by apply elem_of_nil in Hmem|cbn; lia].
Qed.

Lemma filter_none {A} (P : A -> Prop) `{forall x, Decision (P x)} (l : list A) :
  (forall x, x ∈ l -> ¬ P x) -> filter P l = [].
Proof.
  induction l as [|x l IH]; intros Hall; [done|].
  rewrite filter_cons_False by (apply Hall; apply list_elem_of_here).
  apply IH. intros y Hy. apply Hall. by apply list_elem_of_further.
Qed.

(** X13.  When the listing shows no pod of the cluster that is running or
    pending, the tick of a cluster that is not paused calls the disaster
    recovery, with nil members, and does nothing after it: [rerr] becomes
    what the recovery returned (nil after a recovery that succeeded), the
    members are not rebuilt and nothing is reconciled in that tick.  The
    tick does not look at the backup policy before it calls the
    recovery. *)
Theorem tick_without_pods_recovers L E P rerr w cl :
  theCluster w = Some cl -> secureHasStatic L cl ->
  spec.Paused (spec.Spec cl) = false ->
  exists w1, tlsOnly w w1 /\
    forall items,
      Pods_List E (trace w1) (spec.Namespace cl) (spec.Name cl) = inr items ->
      (forall pod, pod ∈ items -> ours (spec.UID cl) pod ->
         v1.Phase (v1.Status pod) ≠ v1.PodRunning /\
         v1.Phase (v1.Status pod) ≠ v1.PodPending) ->
      onTick L E P rerr w =
      match disasterRecovery P None
              (called (CallPodsList (spec.Namespace cl) (spec.Name cl))
                 (set_status (Control L (status w)) w1)) with
      | (Ret rerr', w3) => (Ret (AfterSelect rerr'), w3)
      | (Panic msg, w3) => (Panic msg, w3)
      end.
Proof.
  intros Hc Hs Hp.
  destruct (refreshTLSConfig_run L E w cl Hc Hs) as (r & w1 & Hr & Hf).
  exists w1. split; [done|]. intros items Hans Hnone.
  rewrite (onTick_polled L E P rerr w cl r w1 Hc Hp Hr). rewrite Hans.
  cbn zeta.
  rewrite !filter_none; [done| |].
  - intros pod Hin [Ho Hph]. by destruct (Hnone pod Hin Ho).
  - intros pod Hin [Ho Hph]. by destruct (Hnone pod Hin Ho).
Qed.

Lemma rounds_app L E P ins1 ins2 rerr w :
  rounds L E P (ins1 ++ ins2) rerr w =
  match rounds L E P ins1 rerr w with
  | (Ret (Some rerr1), w1) => rounds L E P ins2 rerr1 w1
  | other => other
  end.
Proof.
  revert rerr w. induction ins1 as [|i ins1 IH]; intros rerr w; [done|].
  cbn [app rounds]. rewrite !bind_run.
  destruct (round L E P i rerr w) as [[[r|]|msg] w1]; [apply IH|done|done].
Qed.

(** X14.  A Delete event ends [run] at once and leaves everything as it
    is: no call is made and neither the status nor the record is written;
    and no input that comes after it is handled. *)
Theorem delete_event_ends_run L E P ins rest ev rerr w :
  typ ev = eventDeleteCluster ->
  round L E P (InEvent ev) rerr w = (Ret None, w) /\
  rounds L E P (ins ++ InEvent ev :: rest) rerr w =
  match rounds L E P ins rerr w with
  | (Ret (Some _), w1) => (Ret None, w1)
  | other => other
  end.
Proof.
  intros Ht.
  assert (forall r w0, round L E P (InEvent ev) r w0 = (Ret None, w0)) as Hdel.
  { intros r w0. unfold round, onEvent. rewrite Ht.
    rewrite bool_decide_eq_false_2 by done.
    by rewrite bool_decide_eq_true_2. }
  split; [done|]. rewrite rounds_app.
  destruct (rounds L E P ins rerr w) as [[[r|]|msg] w1]; try done.
  cbn [rounds]. by rewrite bind_run, Hdel.
Qed.

(** X15.  While [run] goes on, a fatal [rerr] has its message as the
    reason of the status at the start of every round: the status is what
    [SetReason] makes of it (for status methods within [LibLaws]). *)
Theorem run_keeps_fatal_reason_recorded L E P ins w rerr w' :
  LibLaws L ->
  run L E P ins w = (Ret (Some rerr), w') ->
  forall e, rerr = Some e -> isFatalError L (Some e) = true ->
  SetReason L (Error_string L e) (status w') = status w'.
Proof.
  intros HL Hrun. apply run_loopHead in Hrun.
  by apply (loopHead_reasonRecorded L E P).
Qed.

(** X16.  A controller built by [New] on a record in the phase Creating
    panics in its goroutine at once, whatever its inputs: [setup] returns
    [errCreatedCluster], nobody is called and nothing is changed, so every
    restart on the same record ends the same way. *)
Theorem New_on_creating_record_panics L E P ins h cl record :
  cl ≫= (h !!.) = Some record ->
  Validate L (spec.Spec record) = None ->
  spec.Phase (Copy L (spec.Status record)) = spec.ClusterPhaseCreating ->
  exists w,
    New L h cl = Ret w /\ store w = h /\ trace w = [] /\
    goroutine L E P ins w =
    (Panic (String.append "cluster failed to setup: "
              (Error_string L (errCreatedCluster L))), w).
Proof.
  intros Hrec Hv Hp. unfold New. rewrite Hrec.
  eexists. split; [done|]. split; [done|]. split; [done|].
  unfold goroutine. rewrite bind_run.
  by rewrite (setup_creating L E P _ record).
Qed.

(** ** Status of the members *)

Lemma set_trace_id w : set_trace (trace w) w = w.
Proof. by destruct w. Qed.

Lemma updateMemberStatus_loop_run L E ms ready unready w :
  exists ready' unready' calls,
    updateMemberStatus_loop L E ms ready unready w =
      (Ret (ready', unready'), set_trace (trace w ++ calls) w) /\
    ready' ++ unready' ≡ₚ (ready ++ unready) ++ (etcdutil.Name <$> ms) /\
    length calls = length ms /\
    Forall (fun c => exists url, c = CallCheckHealth url (tlsConfig w)) calls.
Proof.
  revert ready unready w.
  induction ms as [|m ms IH]; intros ready unready w.
  - exists ready, unready, []. cbn. rewrite !app_nil_r, set_trace_id.
    by repeat split.
  - cbn [updateMemberStatus_loop]. rewrite bind_run. unfold get at 1.
    rewrite bind_run. unfold call at 1.
    destruct (CheckHealth E (trace w) (ClientURL L m) (tlsConfig w))
      as [healthy err].
    set (w1 := set_trace _ w).
    destruct healthy.
    + destruct (IH (ready ++ [etcdutil.Name m]) unready w1)
        as (r' & u' & calls & -> & Hperm & Hlen & Hall).
      exists r', u', (CallCheckHealth (ClientURL L m) (tlsConfig w) :: calls).
      split; [|split; [|split]].
      * unfold w1. cbn. by rewrite <- (assoc_L (++)).
      * rewrite Hperm. cbn [fmap list_fmap].
        rewrite <- !(assoc_L (++)). cbn.
        by rewrite (Permutation_middle unready).
      * cbn. by rewrite Hlen.
      * constructor; eauto.
    + destruct (IH ready (unready ++ [etcdutil.Name m]) w1)
        as (r' & u' & calls & -> & Hperm & Hlen & Hall).
      exists r', u', (CallCheckHealth (ClientURL L m) (tlsConfig w) :: calls).
      split; [|split; [|split]].
      * unfold w1. cbn. by rewrite <- (assoc_L (++)).
      * rewrite Hperm. cbn [fmap list_fmap].
        by rewrite <- !(assoc_L (++)).
      * cbn. by rewrite Hlen.
      * constructor; eauto.
Qed.

(** X17.  [updateMemberStatus] asks for the health of every member once,
    with the current TLS configuration, and puts the name of each member in
    exactly one of the two lists of the status: the ready and the unready
    names together are the names of the members, up to order.  It ignores
    the error of a health check, always returns, and changes nothing else
    of the status.  With nil members both lists are empty. *)
Theorem updateMemberStatus_partitions_members L E ms w :
  let names :=
    match ms with
    | Some s => etcdutil.Name <$> (map_to_list s).*2
    | None => []
    end in
  exists ready unready calls,
    updateMemberStatus L E ms w =
      (Ret tt,
       set_status
         (spec.set_Members (spec.mkMembersStatus ready unready) (status w))
         (set_trace (trace w ++ calls) w)) /\
    ready ++ unready ≡ₚ names /\
    length calls = length names /\
    Forall (fun c => exists url, c = CallCheckHealth url (tlsConfig w)) calls.
Proof.
  intros names. unfold updateMemberStatus.
  set (l := match ms with Some s => (map_to_list s).*2 | None => [] end).
  assert (names = etcdutil.Name <$> l) as ->
    by (unfold names, l; by destruct ms).
  destruct (updateMemberStatus_loop_run L E l [] [] w)
    as (ready & unready & calls & Hrun & Hperm & Hlen & Hall).
  exists ready, unready, calls.
  rewrite bind_run, Hrun. rewrite length_fmap.
  by repeat split.
Qed.

(** ** The queue, event after event *)

(** X18.  Events sent one after the other are enqueued in the order of
    the sends, behind the events already queued, as long as they fit; the
    send that finds the queue full is not served. *)
Theorem sendAll_enqueues_in_order evs ch :
  len ch <= eventCh_cap ch ->
  sample.sendAll evs ch =
  if bool_decide (len ch + Z.of_nat (length evs) <= eventCh_cap ch)
  then Some (mkChans (eventCh ch ++ evs) (eventCh_cap ch) (stopCh_closed ch))
  else None.
Proof.
  revert ch. induction evs as [|ev evs IH]; intros ch Hle.
  - cbn. rewrite bool_decide_eq_true_2 by lia.
    rewrite app_nil_r. by destruct ch.
  - cbn [sample.sendAll]. unfold send.
    case_bool_decide as Hlt.
    + cbn [app]. rewrite IH
        by (unfold len in *; cbn; rewrite length_app; cbn; lia).
      cbn [eventCh eventCh_cap stopCh_closed].
      rewrite <- (assoc_L (++)). cbn [app].
      assert (len (mkChans (eventCh ch ++ [ev]) (eventCh_cap ch)
                     (stopCh_closed ch)) = len ch + 1) as ->
        by (unfold len; cbn; rewrite length_app; cbn; lia).
      cbn [length]. repeat case_bool_decide; try done; lia.
    + rewrite bool_decide_eq_false_2 by (cbn [length]; lia).
      by destruct (stopCh_closed ch).
Qed.

(** ** Records in the store *)

(** X19.  [updateCRStatus] writes to one record only, the one that
    [c.cluster] points to, and to nothing of it but the status: every other
    record of the store is as before (a record that the client returns gets
    a location of its own), and the in-memory status is not changed. *)
Theorem updateCRStatus_touches_one_record E w l cl r w' :
  cluster w = Some l -> store w !! l = Some cl ->
  updateCRStatus E w = (r, w') ->
  status w' = status w /\
  (forall l', l' ≠ l -> is_Some (store w !! l') ->
     store w' !! l' = store w !! l') /\
  exists cl',
    store w' !! l = Some cl' /\
    spec.Name cl' = spec.Name cl /\ spec.Namespace cl' = spec.Namespace cl /\
    spec.UID cl' = spec.UID cl /\ spec.Spec cl' = spec.Spec cl /\
    (cl' = cl \/ spec.Status cl' = status w).
Proof.
  intros Hl Hs.
  assert (theCluster w = Some cl) as Hc by (unfold theCluster; by rewrite Hl).
  destruct (decide (spec.Status cl = status w)) as [Heq|Hne].
  - rewrite (updateCRStatus_equal E w cl Hc Heq). intros [= <- <-].
    split; [done|]. split; [done|]. exists cl. repeat split; eauto.
  - rewrite (updateCRStatus_differ E w l cl Hl Hs Hne). cbn zeta.
    set (sent := spec.set_Status (status w) cl).
    assert (forall l', l' ≠ l ->
              <[l:=sent]> (store w) !! l' = store w !! l') as Hother
      by (intros l' Hl'; by apply lookup_insert_ne).
    assert (forall l', is_Some (<[l:=sent]> (store w) !! l') ->
              fresh (dom (<[l:=sent]> (store w))) ≠ l') as Hfresh.
    { intros l' Hin%elem_of_dom Heq. rewrite <- Heq in Hin.
      by apply is_fresh in Hin. }
    destruct (EtcdCRCli_Update E (trace w) sent) as [err|returned];
      intros [= <- <-]; cbn.
    + split; [done|]. split; [by intros l' Hl' _; apply Hother|].
      exists sent. rewrite lookup_insert_eq. repeat split; eauto.
    + split; [done|]. split.
      * intros l' Hl' Hin. rewrite lookup_insert_ne; [by apply Hother|].
        apply Hfresh. by rewrite Hother.
      * exists sent. rewrite lookup_insert_ne, lookup_insert_eq.
        -- repeat split; eauto.
        -- apply Hfresh. rewrite lookup_insert_eq. eauto.
Qed.

(** ** A backup to ABS *)

(** X20.  [handleABS] purges old backups only after a snapshot that was
    saved, as its last call, on the same path and with the schedule's
    maximum; it returns a status only when both the snapshot and the purge
    succeeded, and then the status carries the version and the revision
    that the snapshot reported; whenever it returns an error it returns no
    status (also when the purge failed after the snapshot was saved). *)
Theorem handleABS_purges_after_saved_snapshot E src sch endpoints secret ns :
  let run := abs.handleABS E (Some src) sch endpoints secret ns in
  (forall bm path n, abs.CallPurgeBackup bm path n ∈ run.2 ->
     path = abs.Path src /\ n = abs.MaxBackups sch /\
     exists pre appendRev saved,
       run.2 = pre ++ [abs.CallSaveSnap bm path appendRev;
                       abs.CallPurgeBackup bm path n] /\
       abs.SaveSnap E pre bm path appendRev = inr saved) /\
  (forall st err, run.1 = abs.Returned (Some st) err ->
     err = None /\
     exists pre bm appendRev,
       run.2 = pre ++ [abs.CallSaveSnap bm (abs.Path src) appendRev;
                       abs.CallPurgeBackup bm (abs.Path src)
                         (abs.MaxBackups sch)] /\
       abs.SaveSnap E pre bm (abs.Path src) appendRev =
         inr (controller.EtcdRevision st, controller.EtcdVersion st) /\
       abs.PurgeBackup E
         (pre ++ [abs.CallSaveSnap bm (abs.Path src) appendRev]) bm
         (abs.Path src) (abs.MaxBackups sch) = None) /\
  (forall bs e, run.1 = abs.Returned bs (Some e) -> bs = None).
Proof.
  intros run. unfold run, abs.handleABS.
  destruct (abs.NewClientFromSecret E [] ns (abs.ABSSecret src))
    as [err|cli]; cbn [fst snd].
  { split; [|split].
    - intros bm path n Hin. apply list_elem_of_singleton in Hin. done.
    - intros st e [=].
    - by intros bs e [= <- _]. }
  destruct (abs.tlsConfigOf E _ secret ns) as [[err|tlsConfig] t] eqn:Htls.
  { assert (forall bm path n, abs.CallPurgeBackup bm path n ∉ t) as Hno.
    { unfold abs.tlsConfigOf in Htls.
      intros bm path n Hin.
      repeat case_match; simplify_eq/=;
        repeat (apply elem_of_cons in Hin as [Hin|Hin]; [done|]);
        by apply elem_of_nil in Hin. }
    cbn [fst snd]. split; [|split].
    - intros bm path n Hin. by apply Hno in Hin.
    - intros st e [=].
    - by intros bs e [= <- _]. }
  assert (forall bm path n, abs.CallPurgeBackup bm path n ∉ t) as Hno.
  { unfold abs.tlsConfigOf in Htls.
    intros bm path n Hin.
    repeat case_match; simplify_eq/=;
      repeat (apply elem_of_cons in Hin as [Hin|Hin]; [done|]);
      by apply elem_of_nil in Hin. }
  set (bm := abs.mkBackupManager cli tlsConfig endpoints ns).
  set (ar := bool_decide (0 < abs.BackupIntervalInSecond sch)).
  destruct (abs.SaveSnap E t bm (abs.Path src) ar) as [err|[rev ver]] eqn:Hsnap;
    cbn [fst snd].
  { split; [|split].
    - intros bm' path n Hin. apply elem_of_app in Hin as [Hin|Hin].
      + by apply Hno in Hin.
      + by apply list_elem_of_singleton in Hin.
    - intros st e [=].
    - by intros bs e [= <- _]. }
  assert (forall bm' path n,
            abs.CallPurgeBackup bm' path n ∈
              (t ++ [abs.CallSaveSnap bm (abs.Path src) ar]) ++
              [abs.CallPurgeBackup bm (abs.Path src) (abs.MaxBackups sch)] ->
            bm' = bm /\ path = abs.Path src /\ n = abs.MaxBackups sch)
    as Hpurge.
  { intros bm' path n Hin.
    apply elem_of_app in Hin as [Hin|Hin].
    - apply elem_of_app in Hin as [Hin|Hin]; [by apply Hno in Hin|].
      by apply list_elem_of_singleton in Hin.
    - apply list_elem_of_singleton in Hin. by simplify_eq. }
  destruct (abs.PurgeBackup E _ bm (abs.Path src) (abs.MaxBackups sch))
    as [err|] eqn:Hp; cbn [fst snd].
  - split; [|split].
    + intros bm' path n Hin. apply Hpurge in Hin as (-> & -> & ->).
      do 2 (split; [done|]). exists t, ar, (rev, ver).
      split; [by rewrite <- (assoc_L (++))|done].
    + intros st e [=].
    + by intros bs e [= <- _].
  - split; [|split].
    + intros bm' path n Hin. apply Hpurge in Hin as (-> & -> & ->).
      do 2 (split; [done|]). exists t, ar, (rev, ver).
      split; [by rewrite <- (assoc_L (++))|done].
    + intros st e [= <- <-]. split; [done|]. exists t, bm, ar.
      split; [by rewrite <- (assoc_L (++))|]. by split.
    + intros bs e [=].
Qed.

(** X21.  A snapshot of [handleABS] appends the revision to the path
    exactly when the schedule has a positive interval, and goes to the
    path, the endpoints and the namespace it was given.  Without a client
    TLS secret the manager has no TLS configuration and no secret is read;
    with one, a snapshot is only taken with the configuration built from
    the secret.  A nil source is dereferenced before any call. *)
Theorem handleABS_snapshot_arguments E src sch endpoints secret ns :
  let run := abs.handleABS E (Some src) sch endpoints secret ns in
  (forall bm path appendRev, abs.CallSaveSnap bm path appendRev ∈ run.2 ->
     path = abs.Path src /\
     (appendRev = true <-> 0 < abs.BackupIntervalInSecond sch) /\
     abs.bm_endpoints bm = endpoints /\ abs.bm_namespace bm = ns /\
     (secret = "" -> abs.bm_tlsConfig bm = None) /\
     (secret ≠ "" ->
      exists pre data cfg,
        abs.GetTLSDataFromSecret E pre ns secret = inr data /\
        abs.NewTLSConfig E
          (pre ++ [abs.CallGetTLSDataFromSecret ns secret]) data = inr cfg /\
        abs.bm_tlsConfig bm = Some cfg)) /\
  (secret = "" ->
   forall ns' s', abs.CallGetTLSDataFromSecret ns' s' ∉ run.2) /\
  abs.handleABS E None sch endpoints secret ns = (abs.NilDereference, []).
Proof.
  intros run. split; [|split; [|done]].
  - intros bm path appendRev Hin. revert Hin.
    unfold run, abs.handleABS, abs.tlsConfigOf.
    assert (String.length secret ≠ 0%nat <-> secret ≠ "") as Hlen
      by (by destruct secret).
    intros Hin.
    case_bool_decide as Hs; [apply Hlen in Hs|].
    + repeat (case_match; simplify_eq/=);
        repeat (apply elem_of_app in Hin as [Hin|Hin]);
        repeat (apply elem_of_cons in Hin as [Hin|Hin]);
        try (by apply elem_of_nil in Hin); simplify_eq/=.
      all: split; [done|]; split; [by rewrite bool_decide_eq_true|].
      all: do 2 (split; [done|]).
      all: split; [done|].
      all: intros _; eexists _, _, _; eauto.
    + assert (secret = "") as -> by (destruct (decide (secret = "")); tauto).
      repeat (case_match; simplify_eq/=);
        repeat (apply elem_of_app in Hin as [Hin|Hin]);
        repeat (apply elem_of_cons in Hin as [Hin|Hin]);
        try (by apply elem_of_nil in Hin); simplify_eq/=.
      all: split; [done|]; split; [by rewrite bool_decide_eq_true|].
      all: do 2 (split; [done|]).
      all: by split.
  - intros -> ns' s'. unfold run, abs.handleABS, abs.tlsConfigOf. cbn.
    intros Hin.
    repeat (case_match; simplify_eq/=);
      repeat (apply elem_of_app in Hin as [Hin|Hin]);
      repeat (apply elem_of_cons in Hin as [Hin|Hin]);
      by (try apply elem_of_nil in Hin).
Qed.

(** ** The further statements at sample inputs *)

Lemma sample_returnsSpec : returnsSpec sample.env.
Proof. intros t sent returned [= <-]. reflexivity. Qed.

(** [setup] on a record that asks for no member. *)
Lemma setup_rejects_before_dispatch_witness :
  let w := sample.world scenario.empty sample.status0 in
  setup scenario.libStrict sample.env sample.pkg w =
  (Ret (Some (ErrorfErr "invalid cluster spec: %v" []
                (ErrNew "spec: cluster size must be positive"))), w).
Proof.
  intros w.
  destruct (setup_rejects_before_dispatch scenario.libStrict sample.env
              sample.pkg w scenario.empty eq_refl) as [Hinvalid _].
  exact (Hinvalid _ eq_refl).
Defined.

(** [setup] of a restarted controller on a running cluster that has a
    backup policy. *)
Lemma setup_running_manager_iff_policy_witness :
  let w := sample.world sample.withBackup sample.running in
  managerIffPolicy (setup sample.lib sample.env sample.pkg w).2
    (Some sample.policy).
Proof.
  intros w.
  exact (setup_running_manager_iff_policy sample.lib sample.env sample.pkg w
           sample.withBackup _ eq_refl eq_refl eq_refl eq_refl eq_refl).
Defined.

(** A backup policy is added to a cluster that had none. *)
Lemma updateBackupPolicy_manager_iff_policy_witness :
  let w := sample.world sample.withBackup sample.status0 in
  managerIffPolicy
    (updateBackupPolicy sample.env None (Some sample.policy) w).2
    (Some sample.policy).
Proof.
  intros w.
  apply (updateBackupPolicy_manager_iff_policy sample.env None
           (Some sample.policy) w).
  - discriminate.
  - unfold managerIffPolicy. cbn. split; intros [? [=]].
  - reflexivity.
Defined.

(** A Modify event that adds a backup policy, received twice. *)
Lemma modify_twice_is_modify_once_witness :
  let w := sample.world2 sample.plain sample.withBackup sample.status0 in
  let w1 := (round sample.lib sample.env sample.pkg
               (InEvent sample.modifyEvent) None w).2 in
  cluster w1 = Some 2%positive /\ bm w1 = Some 1 /\
  exists w2,
    round sample.lib sample.env sample.pkg (InEvent sample.modifyEvent) None w1 =
      (Ret (Some None), w2) /\
    cluster w2 = cluster w1 /\ bm w2 = bm w1 /\ status w2 = status w1.
Proof.
  intros w w1.
  destruct (modify_twice_is_modify_once sample.lib sample.env sample.pkg
              None w sample.modifyEvent 2%positive sample.withBackup
              sample.plain None w1
              sample_lib_laws (loopHead_first _ _ _ _)
              eq_refl eq_refl eq_refl eq_refl
              (sample_secureHasStatic sample.plain eq_refl)
              (sample_secureHasStatic sample.withBackup eq_refl)
              eq_refl)
    as (w2 & Hrun & Hc & _ & Hbm & Hst & _).
  split; [reflexivity|]. split; [reflexivity|].
  exists w2. split; [exact Hrun|]. split; [exact Hc|].
  split; [exact Hbm | exact Hst].
Defined.

(** The pod of a new member, for a pod policy with a claim and a host
    path: the claim is created, and the pod gets its volume. *)
Lemma createPod_attaches_one_storage_witness :
  let w := sample.world scenario.bothVolumes sample.status0 in
  exists pvc pod,
    createPod sample.lib sample.env {[ scenario.seedName := scenario.seed ]}
      scenario.seed "new" false w =
    (Ret None,
     set_trace [CallUUIDNew; CallPVCCreate "default" pvc;
                CallPodsCreate "default" pod] w) /\
    pvc_spec pvc = "10Gi" /\ pr_volume pod = VolumePVC "10Gi".
Proof.
  intros w.
  destruct (createPod_attaches_one_storage sample.lib sample.env
              {[ scenario.seedName := scenario.seed ]} scenario.seed
              "new" false w scenario.bothVolumes eq_refl) as [Hrun _].
  eexists _, _. split; [rewrite Hrun; reflexivity|]. split; reflexivity.
Defined.



(** The creation of the sample cluster when the record client fails. *)
Lemma create_stops_when_status_write_fails_witness :
  let w := sample.world sample.plain sample.status0 in
  exists w',
    create sample.lib sample.envUpdateFails sample.pkg w =
    (Ret (Some (ErrorfErr
                  "cluster create: failed to update cluster phase (%v): %v"
                  ["Creating"]
                  (ErrorfErr "failed to update CR status: %v" []
                     (ErrCollab "conflict" 409)))), w') /\
    trace w' =
      [CallCRUpdate (sample.record (sample.clusterSpec false None)
                       (sample.statusIn spec.ClusterPhaseCreating))].
Proof.
  intros w.
  destruct (create_stops_when_status_write_fails sample.lib
              sample.envUpdateFails sample.pkg w 1%positive sample.plain
              (ErrCollab "conflict" 409) eq_refl eq_refl
              ltac:(discriminate) eq_refl)
    as (Hrun & Htrace & _).
  eexists. split; [exact Hrun | exact Htrace].
Defined.

(** The creation of the sample cluster with a backup policy, its manager
    constructed. *)
Lemma create_with_backup_policy_starts_no_member_witness :
  let w := set_bm (Some 1) (sample.world sample.withBackup sample.status0) in
  let w' := (create sample.lib sample.env sample.pkg w).2 in
  (create sample.lib sample.env sample.pkg w).1 = Ret None /\
  members w' = None /\ memberCounter w' = 0.
Proof.
  intros w w'.
  destruct (create_with_backup_policy_starts_no_member sample.lib sample.env
              sample.pkg w sample.withBackup sample.policy (Ret None) w'
              eq_refl eq_refl sample_returnsSpec
              ltac:(vm_compute; reflexivity))
    as (Hms & Hcounter & _).
  split; [vm_compute; reflexivity|]. split; [exact Hms | exact Hcounter].
Defined.

(** A tick while one pod of the cluster is pending. *)
Lemma tick_waits_for_pending_pods_witness :
  exists w',
    round sample.lib (sample.envWith inr None sample.pods) scenario.pkgNoBackup
      InTick None (sample.world sample.plain sample.status0) =
    (Ret (Some None), w').
Proof.
  destruct (tick_waits_for_pending_pods sample.lib
              (sample.envWith inr None sample.pods) None
              (sample.world sample.plain sample.status0) sample.plain
              eq_refl (sample_secureHasStatic sample.plain eq_refl) eq_refl)
    as (w1 & _ & Hround).
  eexists. apply Hround. right.
  exists sample.pods, (sample.pod "example-0001" "uid-1" v1.PodPending).
  split; [reflexivity|].
  split; [apply list_elem_of_further, list_elem_of_here|].
  split; reflexivity.
Defined.

(** A tick while no pod is listed and no backup exists. *)
Lemma tick_without_pods_recovers_witness :
  exists w',
    onTick sample.lib sample.env scenario.pkgNoBackup None
      (sample.world sample.plain sample.status0) =
    (Ret (AfterSelect (Some sample.errNoBackupExist)), w').
Proof.
  destruct (tick_without_pods_recovers sample.lib sample.env
              scenario.pkgNoBackup None
              (sample.world sample.plain sample.status0) sample.plain
              eq_refl (sample_secureHasStatic sample.plain eq_refl) eq_refl)
    as (w1 & _ & Htick).
  eexists. rewrite (Htick [] eq_refl).
  - reflexivity.
  - intros pod Hin. by apply elem_of_nil in Hin.
Defined.

(** A Delete event between two ticks on a paused cluster. *)
Lemma delete_event_ends_run_witness :
  let w := sample.world sample.paused sample.status0 in
  exists w',
    rounds sample.lib sample.env sample.pkg
      ([InTick] ++ InEvent scenario.deleteEvent :: [InTick]) None w =
    (Ret None, w') /\
    trace w' = [].
Proof.
  intros w.
  destruct (delete_event_ends_run sample.lib sample.env sample.pkg [InTick]
              [InTick] scenario.deleteEvent None w eq_refl) as [_ Hrun].
  eexists. split; [rewrite Hrun; reflexivity | reflexivity].
Defined.

(** A run of one tick in which the disaster recovery finds no backup. *)
Lemma run_keeps_fatal_reason_recorded_witness :
  let w := sample.world sample.plain sample.status0 in
  let r := run sample.lib sample.env scenario.pkgNoBackup [InTick] w in
  r.1 = Ret (Some (Some sample.errNoBackupExist)) /\
  spec.Reason (status r.2) = "no backup exist for a disaster recovery".
Proof.
  intros w r. split; [vm_compute; reflexivity|].
  pose proof (run_keeps_fatal_reason_recorded sample.lib sample.env
                scenario.pkgNoBackup [InTick] w
                (Some sample.errNoBackupExist) r.2 sample_lib_laws
                ltac:(vm_compute; reflexivity)
                sample.errNoBackupExist eq_refl eq_refl) as Hreason.
  etrans; [symmetry; exact (f_equal spec.Reason Hreason) | reflexivity].
Defined.

(** A controller made for a record in the phase Creating. *)
Lemma New_on_creating_record_panics_witness :
  exists w,
    New sample.lib scenario.heap (Some 1%positive) =
      Ret w /\
    goroutine sample.lib sample.env sample.pkg [InTick] w =
    (Panic "cluster failed to setup: cluster failed to be created", w).
Proof.
  destruct (New_on_creating_record_panics sample.lib sample.env sample.pkg
              [InTick] scenario.heap
              (Some 1%positive) scenario.creating eq_refl eq_refl eq_refl)
    as (w & Hnew & _ & _ & Hrun).
  exists w. split; [exact Hnew | exact Hrun].
Defined.

(** Three events sent to the queue that [New] makes. *)
Lemma sendAll_enqueues_in_order_witness :
  sample.sendAll
    [sample.modifyEvent; scenario.deleteEvent; sample.modifyEvent] New_chans =
  Some (mkChans
          [sample.modifyEvent; scenario.deleteEvent; sample.modifyEvent]
          100 false).
Proof.
  rewrite (sendAll_enqueues_in_order
             [sample.modifyEvent; scenario.deleteEvent; sample.modifyEvent]
             New_chans ltac:(vm_compute; discriminate)).
  reflexivity.
Defined.

(** A status write while the store holds a second record. *)
Lemma updateCRStatus_touches_one_record_witness :
  let w := sample.world2 sample.plain sample.withBackup sample.running in
  let w' := (updateCRStatus sample.env w).2 in
  status w' = sample.running /\
  store w' !! 2%positive = Some sample.withBackup /\
  exists cl',
    store w' !! 1%positive = Some cl' /\ spec.Spec cl' = spec.Spec sample.plain.
Proof.
  intros w w'.
  destruct (updateCRStatus_touches_one_record sample.env w 1%positive
              sample.plain (updateCRStatus sample.env w).1 w'
              eq_refl eq_refl eq_refl)
    as (Hst & Hother & cl' & Hl & _ & _ & _ & Hspec & _).
  split; [exact Hst|]. split.
  - rewrite (Hother 2%positive ltac:(discriminate) (mk_is_Some _ _ eq_refl)).
    reflexivity.
  - exists cl'. split; [exact Hl | exact Hspec].
Defined.
